(** * Mono-to-stereo mixing kernel ([src/mix.c])

    A shallow embedding of [mix_mono_to_stereo_intrinsics] and of the SSE
    intrinsics it calls, followed by the properties of the kernel.

    - [float] is IEEE-754 binary32, modelled by the standard library's
      [spec_float] at precision 24 and maximal exponent 128; [_mm_mul_ps]
      is four lane-wise [SFmul], rounding to nearest even.  [spec_float]
      has one NaN, which stands for every NaN: payloads and the signalling
      bit are not modelled, and an equation with [S754_nan] says that a
      cell holds a NaN, not which one.
    - [uint32_t] is a [Z] reduced modulo [2^32] after every operation;
      [int] has 32 bits, as on every x86 ABI, so that [2 * i] is an
      unsigned 32-bit product.
    - Memory is a map from float-sized cells to values, and a pointer is
      the number of its cell.  Every vector load and store is recorded in a
      trace, so that the cells the kernel touches can be counted.
    - The [for] loop takes fuel: one unit per executed iteration. *)

From Stdlib Require Import ZArith List Bool Lia.
From Stdlib Require Import Floats.SpecFloat.
Import ListNotations.
Local Open Scope Z_scope.

(** ** Scalars *)

Module F32.

Definition prec : Z := 24.
Definition emax : Z := 128.

Definition float32 : Type := spec_float.

(** The values a C [float] can hold. *)
Definition valid (x : float32) : bool := valid_binary prec emax x.

(** [a * b] in single precision. *)
Definition mul (a b : float32) : float32 := SFmul prec emax a b.

(** C's [==] on floats. *)
Definition eqb (a b : float32) : bool := SFeqb a b.

(** The float nearest to [m * 2^e]. *)
Definition of_Z_exp (m e : Z) : float32 := binary_normalize prec emax m e false.

Definition pzero : float32 := S754_zero false.
Definition pinf : float32 := S754_infinity false.
Definition one : float32 := S754_finite false 8388608 (-23).

Definition is_zero (x : float32) : bool :=
  match x with S754_zero _ => true | _ => false end.

Definition is_nan (x : float32) : bool :=
  match x with S754_nan => true | _ => false end.

(** Neither an infinity nor a NaN. *)
Definition is_finite (x : float32) : bool :=
  match x with S754_zero _ | S754_finite _ _ _ => true | _ => false end.

(** What two results that are equal up to rounding have in common
    whatever the tolerance: one is a NaN exactly when the other is. *)
Definition nan_agree (a b : float32) : bool := Bool.eqb (is_nan a) (is_nan b).

(** [2^j], for [-126 <= j <= 127]. *)
Definition pow2 (j : Z) : float32 := S754_finite false 8388608 (j - 23).

(** A normal number: a mantissa of 24 bits and an exponent in range. *)
Definition normal (x : float32) : bool :=
  match x with
  | S754_finite _ m e =>
      (Zpos (digits2_pos m) =? prec) && (emin prec emax <=? e) && (e <=? emax - prec)
  | _ => false
  end.

(** The exponent [e] of a finite [m * 2^e]. *)
Definition expo (x : float32) : Z :=
  match x with S754_finite _ _ e => e | _ => 0 end.

(** [x * 2^j] with the mantissa of [x], whether it is a float or not. *)
Definition shift_expo (j : Z) (x : float32) : float32 :=
  match x with S754_finite s m e => S754_finite s m (e + j) | _ => x end.

(** The float of sign [s], rounded mantissa [m] and exponent [e]. *)
Definition rounded (s : bool) (m : Z) (e : Z) : float32 :=
  match m with
  | 0 => S754_zero s
  | Zpos p => if e <=? emax - prec then S754_finite s p e else S754_infinity s
  | Zneg _ => S754_nan
  end.

(** Scaling by [2^j] is exact on [x] and on [x * g]: [x] and [g] are
    normal numbers, [x * 2^j] is one, the leading bits of [x] and [g]
    alone put [x * g] and [(x * 2^j) * g] at or above the smallest normal
    number [2^-126], and neither product overflows. *)
Definition scales_exactly (j : Z) (x g : float32) : bool :=
  normal x && normal g
  && (emin prec emax <=? expo x + j) && (expo x + j <=? emax - prec)
  && (emin prec emax - 23 <=? expo x + expo g)
  && (emin prec emax - 23 <=? expo x + expo g + j)
  && is_finite (mul x g) && is_finite (mul (mul x (pow2 j)) g).

(** Equal up to rounding: both NaN, the same infinity, the same zero, or
    two numbers of the same sign that are at most [tol] units in the last
    place apart, the unit being that of the number with the larger
    exponent. *)
Definition close_to (tol : Z) (a b : float32) : bool :=
  match a, b with
  | S754_finite sa ma ea, S754_finite sb mb eb =>
      Bool.eqb sa sb
      && (Z.abs (Zpos ma * 2 ^ (ea - Z.min ea eb) - Zpos mb * 2 ^ (eb - Z.min ea eb))
          <=? tol * 2 ^ (Z.max ea eb - Z.min ea eb))
  | S754_zero sa, S754_zero sb => Bool.eqb sa sb
  | S754_infinity sa, S754_infinity sb => Bool.eqb sa sb
  | S754_nan, S754_nan => true
  | _, _ => false
  end.

(** No product of the sample [x], the scale [k] and the gain [g]
    overflows or underflows: [k] and [g] are finite, and
    - [x] is a zero, an infinity or a NaN, or
    - [k] or [g] is a zero and neither [x * k] nor [x * g] overflows, or
    - [x], [k] and [g] are normal numbers, their leading bits alone put
      [x * k], [x * g] and [x * k * g] at or above the smallest normal
      number [2^-126], and none of the four products overflows. *)
Definition scale_safe (x k g : float32) : bool :=
  is_finite k && is_finite g
  && match x with
     | S754_finite _ _ _ =>
         if is_zero k || is_zero g
         then is_finite (mul x k) && is_finite (mul x g)
         else normal x && normal k && normal g
              && (emin prec emax - 23 <=? expo x + expo k)
              && (emin prec emax - 23 <=? expo x + expo g)
              && (emin prec emax - 46 <=? expo x + expo k + expo g)
              && is_finite (mul x k) && is_finite (mul x g)
              && is_finite (mul (mul x k) g) && is_finite (mul (mul x g) k)
     | _ => true
     end.

(** The record [r] after [n] shifts stands for [M]: twice [M] is
    [(2 * m + r) * 2^n + u] with [0 <= u < 2^n], and the sticky bit tells
    whether [u] is zero. *)
Definition shr_stands_for (M n : Z) (r : shr_record) : Prop :=
  exists u,
    2 * M = (2 * shr_m r + (if shr_r r then 1 else 0)) * 2 ^ n + u /\
    0 <= u < 2 ^ n /\ shr_s r = negb (u =? 0).

(** [-x]. *)
Definition opp (x : float32) : float32 := SFopp x.

Definition is_inf (x : float32) : bool :=
  match x with S754_infinity _ => true | _ => false end.

End F32.

Definition float32 : Type := F32.float32.

(** ** Unsigned 32-bit arithmetic *)

Definition UINT32_MOD : Z := 4294967296.

Definition u32 (z : Z) : Z := z mod UINT32_MOD.

Definition is_uint32 (z : Z) : Prop := 0 <= z < UINT32_MOD.

(** ** Memory and the trace of accesses *)

Definition mem : Type := Z -> float32.

Definition mem_set (m : mem) (a : Z) (v : float32) : mem :=
  fun b => if b =? a then v else m b.

(** ** Vectors of four floats and the intrinsics *)

Record __m128 : Type := mk_m128 { lane0 : float32; lane1 : float32; lane2 : float32; lane3 : float32 }.

(** A four-lane load from, or store to, the cells [p .. p+3]. *)
Inductive event : Type :=
| EvLoadu (p : Z)
| EvStoreu (p : Z).

Record state : Type := mk_state { st_mem : mem; st_trace : list event }.

Definition _mm_set1_ps (w : float32) : __m128 := mk_m128 w w w w.

Definition _mm_loadu_ps (p : Z) (st : state) : __m128 * state :=
  let m := st_mem st in
  (mk_m128 (m p) (m (p + 1)) (m (p + 2)) (m (p + 3)),
   mk_state m (st_trace st ++ [EvLoadu p])).

Definition _mm_mul_ps (a b : __m128) : __m128 :=
  mk_m128 (F32.mul (lane0 a) (lane0 b)) (F32.mul (lane1 a) (lane1 b))
          (F32.mul (lane2 a) (lane2 b)) (F32.mul (lane3 a) (lane3 b)).

Definition _mm_unpacklo_ps (a b : __m128) : __m128 :=
  mk_m128 (lane0 a) (lane0 b) (lane1 a) (lane1 b).

Definition _mm_unpackhi_ps (a b : __m128) : __m128 :=
  mk_m128 (lane2 a) (lane2 b) (lane3 a) (lane3 b).

Definition store_lanes (m : mem) (p : Z) (v : __m128) : mem :=
  mem_set (mem_set (mem_set (mem_set m p (lane0 v)) (p + 1) (lane1 v))
                   (p + 2) (lane2 v)) (p + 3) (lane3 v).

Definition _mm_storeu_ps (p : Z) (v : __m128) (st : state) : state :=
  mk_state (store_lanes (st_mem st) p v) (st_trace st ++ [EvStoreu p]).

(** ** The kernel *)

(** One pass through the body of the [for] loop, at block start [i]. *)
Definition mix_block (dst src : Z) (mul_l mul_r : __m128) (i : Z) (st : state) : state :=
  let '(in_, st1) := _mm_loadu_ps (src + i) st in
  let out_l := _mm_mul_ps in_ mul_l in
  let out_r := _mm_mul_ps in_ mul_r in
  let out_lo := _mm_unpacklo_ps out_l out_r in
  let out_hi := _mm_unpackhi_ps out_l out_r in
  let st2 := _mm_storeu_ps (dst + u32 (u32 (2 * i) + 0)) out_lo st1 in
  _mm_storeu_ps (dst + u32 (u32 (2 * i) + 4)) out_hi st2.

(** [for (uint32_t i = ...; i < num_samples; i += 4)], entered with the
    current value of [i]; [None] when the fuel runs out before the exit. *)
Fixpoint mix_loop (fuel : nat) (num_samples dst src : Z) (mul_l mul_r : __m128)
         (i : Z) (st : state) : option state :=
  if i <? num_samples then
    match fuel with
    | O => None
    | S fuel' =>
        mix_loop fuel' num_samples dst src mul_l mul_r (u32 (i + 4))
                 (mix_block dst src mul_l mul_r i st)
    end
  else Some st.

(** How a call ends: the assertion failed and the process was aborted in
    the state [st], or the function returned in the state [st]. *)
Inductive outcome : Type :=
| Aborted (st : state)
| Returned (st : state).

(** [mix.c] includes [<assert.h>] without defining [NDEBUG]: the assertion
    is checked. *)
Definition mix_mono_to_stereo_intrinsics (fuel : nat) (num_samples dst src : Z)
           (gain_l gain_r : float32) (st : state) : option outcome :=
  if num_samples mod 4 =? 0 then
    let mul_l := _mm_set1_ps gain_l in
    let mul_r := _mm_set1_ps gain_r in
    match mix_loop fuel num_samples dst src mul_l mul_r 0 st with
    | Some st' => Some (Returned st')
    | None => None
    end
  else Some (Aborted st).

(** ** Running the kernel on buffers given as lists *)

Fixpoint mem_of_list (base : Z) (l : list float32) (m : mem) : mem :=
  match l with
  | [] => m
  | x :: l' => mem_of_list (base + 1) l' (mem_set m base x)
  end.

Definition read_buf (m : mem) (base : Z) (len : nat) : list float32 :=
  map (fun k => m (base + Z.of_nat k)) (seq 0 len).

(** The constants of the examples: [1.0], [2.0], [3.0], [4.0], [6.0],
    [8.0], [0.5], [1.5] and [2^100]. *)
Definition f1 : float32 := F32.of_Z_exp 1 0.
Definition f2 : float32 := F32.of_Z_exp 2 0.
Definition f3 : float32 := F32.of_Z_exp 3 0.
Definition f4 : float32 := F32.of_Z_exp 4 0.
Definition f6 : float32 := F32.of_Z_exp 6 0.
Definition f8 : float32 := F32.of_Z_exp 8 0.
Definition f0_5 : float32 := F32.of_Z_exp 1 (-1).
Definition f1_5 : float32 := F32.of_Z_exp 3 (-1).
Definition f2p100 : float32 := F32.of_Z_exp 1 100.

(** [1 + 2^-23], [3 * 2^-100] and [2^-50]. *)
Definition f1_next : float32 := F32.of_Z_exp 8388609 (-23).
Definition f3_2m100 : float32 := F32.of_Z_exp 3 (-100).
Definition f2m50 : float32 := F32.of_Z_exp 1 (-50).

(** A memory holding [l] from cell [0] on and [+0.0] elsewhere, with no
    access recorded yet. *)
Definition state_of_list (l : list float32) : state :=
  mk_state (mem_of_list 0 l (fun _ => F32.pzero)) [].

(** The count [2^31 + 4] and the sample [2^31], whose destination index
    [2 * 2^31] does not fit 32 bits. *)
Definition wrap_count : Z := 2147483652.
Definition wrap_sample : Z := 2147483648.

(** A memory with [1.0] in every cell below [2^32] and [2.0] in every
    cell from [2^32] on. *)
Definition state_ones_then_twos : state :=
  mk_state (fun a => if a <? 4294967296 then f1 else f2) [].

(** ** What a call leaves behind *)

Definition returned_mem (r : option outcome) : option mem :=
  match r with
  | Some (Returned st) => Some (st_mem st)
  | _ => None
  end.

Definition returned_cell (r : option outcome) (a : Z) : option float32 :=
  option_map (fun m => m a) (returned_mem r).

(** ** Scaling a buffer

    The operation the scale-invariance property compares the kernel with:
    every cell of the [len] cells from [base] on is multiplied by [k].  It
    is not part of [mix.c]. *)
Definition scale_buf (k : float32) (base len : Z) (m : mem) : mem :=
  fun a => if (base <=? a) && (a <? base + len) then F32.mul (m a) k else m a.

(** The two sides of scale invariance: scale the source and mix, or mix
    and scale the destination. *)
Definition scale_then_mix (fuel : nat) (n dst src : Z) (gain_l gain_r k : float32)
           (st : state) : option mem :=
  returned_mem
    (mix_mono_to_stereo_intrinsics fuel n dst src gain_l gain_r
       (mk_state (scale_buf k src n (st_mem st)) (st_trace st))).

Definition mix_then_scale (fuel : nat) (n dst src : Z) (gain_l gain_r k : float32)
           (st : state) : option mem :=
  option_map (scale_buf k dst (2 * n))
    (returned_mem (mix_mono_to_stereo_intrinsics fuel n dst src gain_l gain_r st)).


(** ** Reading the trace *)

Definition cells4 (p : Z) : list Z := [p; p + 1; p + 2; p + 3].

(** The cells read, and the cells written, in the order of the accesses. *)
Definition cells_read (tr : list event) : list Z :=
  flat_map (fun ev => match ev with EvLoadu p => cells4 p | EvStoreu _ => [] end) tr.

Definition cells_written (tr : list event) : list Z :=
  flat_map (fun ev => match ev with EvStoreu p => cells4 p | EvLoadu _ => [] end) tr.

Definition is_load (ev : event) : bool :=
  match ev with EvLoadu _ => true | EvStoreu _ => false end.

Definition loads (tr : list event) : nat := length (filter is_load tr).
Definition stores (tr : list event) : nat := length (filter (fun ev => negb (is_load ev)) tr).

(** How often the cell [a] is written. *)
Definition times_written (tr : list event) (a : Z) : nat :=
  count_occ Z.eq_dec (cells_written tr) a.

(** ** The loop, unrolled *)

(** The [k] block starts [i, i+4, ...]. *)
Fixpoint block_starts (i : Z) (k : nat) : list Z :=
  match k with
  | O => []
  | S k' => i :: block_starts (i + 4) k'
  end.

Definition run_blocks (dst src : Z) (mul_l mul_r : __m128) (l : list Z) (st : state) : state :=
  fold_left (fun s j => mix_block dst src mul_l mul_r j s) l st.

Definition block_events (dst src : Z) (j : Z) : list event :=
  [EvLoadu (src + j); EvStoreu (dst + u32 (u32 (2 * j) + 0)); EvStoreu (dst + u32 (u32 (2 * j) + 4))].

(** The number of blocks in [n] samples, and the state the call returns in
    when the loop runs that many blocks from [i = 0]. *)
Definition num_blocks (n : Z) : nat := Z.to_nat (n / 4).

Definition mixed (n dst src : Z) (gain_l gain_r : float32) (st : state) : state :=
  run_blocks dst src (_mm_set1_ps gain_l) (_mm_set1_ps gain_r)
             (block_starts 0 (num_blocks n)) st.

(** How often the cell [a] is read. *)
Definition times_read (tr : list event) (a : Z) : nat :=
  count_occ Z.eq_dec (cells_read tr) a.

(** ** Two calls in a row

    A caller that calls the kernel on [n1] samples and, when that call has
    returned, on [n2] samples, with buffers of its choice and the same
    gains.  The second call starts in the state the first returned in. *)
Definition mix_twice (fuel : nat) (n1 dst1 src1 n2 dst2 src2 : Z)
           (gain_l gain_r : float32) (st : state) : option outcome :=
  match mix_mono_to_stereo_intrinsics fuel n1 dst1 src1 gain_l gain_r st with
  | Some (Returned st1) =>
      mix_mono_to_stereo_intrinsics fuel n2 dst2 src2 gain_l gain_r st1
  | r => r
  end.

(** Eight samples for the examples. *)
Definition ramp8 : list float32 := [f1; f2; f3; f4; f6; f8; f0_5; f1_5].

(** * Properties *)

(** ** Unsigned arithmetic *)

Lemma u32_small (z : Z) : 0 <= z < UINT32_MOD -> u32 z = z.
Proof. intros H. unfold u32. apply Z.mod_small. exact H. Qed.

Ltac u32_arith :=
  unfold u32, UINT32_MOD, is_uint32 in *; Z.div_mod_to_equations; lia.

(** For a block start [i] (a multiple of four below [2^32]) the two store
    offsets are [u32 (2*i)] and that plus four: the doubling may wrap, the
    additions do not. *)
Lemma store_offsets (i : Z) :
  0 <= i < UINT32_MOD -> i mod 4 = 0 ->
  u32 (u32 (2 * i) + 0) = u32 (2 * i) /\
  u32 (u32 (2 * i) + 4) = u32 (2 * i) + 4 /\
  0 <= u32 (2 * i) /\ u32 (2 * i) + 8 <= UINT32_MOD /\ u32 (2 * i) <= 2 * i.
Proof. intros Hi H4. u32_arith. Qed.

Lemma store_offsets_nowrap (i : Z) :
  0 <= i -> 2 * i + 8 <= UINT32_MOD ->
  u32 (u32 (2 * i) + 0) = 2 * i /\ u32 (u32 (2 * i) + 4) = 2 * i + 4.
Proof. intros Hi H. u32_arith. Qed.

(** ** Memory *)

Lemma mem_set_eq (m : mem) (a : Z) (v : float32) : mem_set m a v a = v.
Proof. unfold mem_set. now rewrite Z.eqb_refl. Qed.

Lemma mem_set_neq (m : mem) (a b : Z) (v : float32) : b <> a -> mem_set m a v b = m b.
Proof. unfold mem_set. intros H. apply Z.eqb_neq in H. now rewrite H. Qed.

Lemma store_lanes_outside (m : mem) (p : Z) (v : __m128) (a : Z) :
  a < p \/ p + 4 <= a -> store_lanes m p v a = m a.
Proof.
  intros H. unfold store_lanes. rewrite !mem_set_neq by lia. reflexivity.
Qed.

Lemma store_lanes_inside (m : mem) (p : Z) (v : __m128) :
  store_lanes m p v p = lane0 v /\ store_lanes m p v (p + 1) = lane1 v /\
  store_lanes m p v (p + 2) = lane2 v /\ store_lanes m p v (p + 3) = lane3 v.
Proof.
  unfold store_lanes. repeat split.
  - rewrite !mem_set_neq by lia. apply mem_set_eq.
  - rewrite !mem_set_neq by lia. apply mem_set_eq.
  - rewrite !mem_set_neq by lia. apply mem_set_eq.
  - apply mem_set_eq.
Qed.

(** ** One block *)

Section Block.

Variables (dst src : Z) (mul_l mul_r : __m128).

Lemma mix_block_trace (i : Z) (st : state) :
  st_trace (mix_block dst src mul_l mul_r i st) = st_trace st ++ block_events dst src i.
Proof.
  unfold mix_block, block_events, _mm_loadu_ps, _mm_storeu_ps. cbn [st_trace].
  rewrite <- !app_assoc. reflexivity.
Qed.

Lemma mix_block_mem (i : Z) (st : state) :
  let m := st_mem st in
  st_mem (mix_block dst src mul_l mul_r i st)
  = store_lanes
      (store_lanes m (dst + u32 (u32 (2 * i) + 0))
         (mk_m128 (F32.mul (m (src + i)) (lane0 mul_l))
                  (F32.mul (m (src + i)) (lane0 mul_r))
                  (F32.mul (m (src + i + 1)) (lane1 mul_l))
                  (F32.mul (m (src + i + 1)) (lane1 mul_r))))
      (dst + u32 (u32 (2 * i) + 4))
      (mk_m128 (F32.mul (m (src + i + 2)) (lane2 mul_l))
               (F32.mul (m (src + i + 2)) (lane2 mul_r))
               (F32.mul (m (src + i + 3)) (lane3 mul_l))
               (F32.mul (m (src + i + 3)) (lane3 mul_r))).
Proof. reflexivity. Qed.

(** The block at [i] leaves alone every cell outside the eight cells
    starting at [dst + u32 (2*i)]. *)
Lemma mix_block_frame (i : Z) (st : state) (a : Z) :
  0 <= i < UINT32_MOD -> i mod 4 = 0 ->
  a < dst + u32 (2 * i) \/ dst + u32 (2 * i) + 8 <= a ->
  st_mem (mix_block dst src mul_l mul_r i st) a = st_mem st a.
Proof.
  intros Hi H4 Ha.
  destruct (store_offsets i Hi H4) as (E0 & E4 & _).
  rewrite mix_block_mem. cbv zeta. rewrite E0, E4.
  rewrite !store_lanes_outside by lia. reflexivity.
Qed.

Lemma mix_block_frame_nowrap (i : Z) (st : state) (a : Z) :
  0 <= i -> 2 * i + 8 <= UINT32_MOD ->
  a < dst + 2 * i \/ dst + 2 * i + 8 <= a ->
  st_mem (mix_block dst src mul_l mul_r i st) a = st_mem st a.
Proof.
  intros Hi Hw Ha.
  destruct (store_offsets_nowrap i Hi Hw) as (E0 & E4).
  rewrite mix_block_mem. cbv zeta. rewrite E0, E4.
  rewrite !store_lanes_outside by lia. reflexivity.
Qed.

End Block.

(** Without wrap-around the block at [i] writes the eight products of the
    four samples it loaded, left and right interleaved. *)
Lemma mix_block_cells (dst src : Z) (gain_l gain_r : float32) (i : Z) (st : state) (j : Z) :
  0 <= i -> 2 * i + 8 <= UINT32_MOD -> i <= j < i + 4 ->
  let st' := mix_block dst src (_mm_set1_ps gain_l) (_mm_set1_ps gain_r) i st in
  st_mem st' (dst + 2 * j) = F32.mul (st_mem st (src + j)) gain_l /\
  st_mem st' (dst + 2 * j + 1) = F32.mul (st_mem st (src + j)) gain_r.
Proof.
  intros Hi Hw Hj st'. subst st'.
  destruct (store_offsets_nowrap i Hi Hw) as (E0 & E4).
  rewrite mix_block_mem. cbv zeta. rewrite E0, E4.
  match goal with
  | |- context [store_lanes (store_lanes ?m ?p ?lo) ?q ?hi] =>
      destruct (store_lanes_inside m p lo) as (L0 & L1 & L2 & L3);
      destruct (store_lanes_inside (store_lanes m p lo) q hi) as (H0 & H1 & H2 & H3)
  end.
  cbn [lane0 lane1 lane2 lane3 _mm_set1_ps] in *.
  assert (Hc : j = i \/ j = i + 1 \/ j = i + 2 \/ j = i + 3) by lia.
  destruct Hc as [-> | [-> | [-> | ->]]].
  - split.
    + rewrite store_lanes_outside by lia. exact L0.
    + rewrite store_lanes_outside by lia. exact L1.
  - split.
    + rewrite store_lanes_outside by lia.
      replace (dst + 2 * (i + 1)) with (dst + 2 * i + 2) by lia.
      replace (src + (i + 1)) with (src + i + 1) by lia. exact L2.
    + rewrite store_lanes_outside by lia.
      replace (dst + 2 * (i + 1) + 1) with (dst + 2 * i + 3) by lia.
      replace (src + (i + 1)) with (src + i + 1) by lia. exact L3.
  - split.
    + replace (dst + 2 * (i + 2)) with (dst + (2 * i + 4)) by lia.
      replace (src + (i + 2)) with (src + i + 2) by lia. exact H0.
    + replace (dst + 2 * (i + 2) + 1) with (dst + (2 * i + 4) + 1) by lia.
      replace (src + (i + 2)) with (src + i + 2) by lia. exact H1.
  - split.
    + replace (dst + 2 * (i + 3)) with (dst + (2 * i + 4) + 2) by lia.
      replace (src + (i + 3)) with (src + i + 3) by lia. exact H2.
    + replace (dst + 2 * (i + 3) + 1) with (dst + (2 * i + 4) + 3) by lia.
      replace (src + (i + 3)) with (src + i + 3) by lia. exact H3.
Qed.

(** ** The loop *)

Section Loop.

Variables (dst src : Z) (mul_l mul_r : __m128).

Lemma run_blocks_cons (j : Z) (l : list Z) (st : state) :
  run_blocks dst src mul_l mul_r (j :: l) st
  = run_blocks dst src mul_l mul_r l (mix_block dst src mul_l mul_r j st).
Proof. reflexivity. Qed.

(** With [k] blocks left before [i] reaches [num_samples], the loop runs
    those [k] blocks when it has the fuel for them. *)
Lemma mix_loop_unroll (n : Z) (k : nat) :
  forall (fuel : nat) (i : Z) (st : state),
    0 <= i -> i + 4 * Z.of_nat k = n -> n < UINT32_MOD -> (k <= fuel)%nat ->
    mix_loop fuel n dst src mul_l mul_r i st
    = Some (run_blocks dst src mul_l mul_r (block_starts i k) st).
Proof.
  induction k as [|k IH]; intros fuel i st Hi Hn Hlt Hf.
  - assert (E : (i <? n) = false) by (apply Z.ltb_ge; lia).
    destruct fuel; cbn [mix_loop]; rewrite E; reflexivity.
  - assert (E : (i <? n) = true) by (apply Z.ltb_lt; lia).
    destruct fuel as [|fuel]; [lia|].
    cbn [mix_loop block_starts]. rewrite E, run_blocks_cons.
    rewrite (u32_small (i + 4)) by (unfold UINT32_MOD in *; lia).
    apply IH; lia.
Qed.

(** ... and gives up when it has not. *)
Lemma mix_loop_starved (n : Z) (k : nat) :
  forall (fuel : nat) (i : Z) (st : state),
    0 <= i -> i + 4 * Z.of_nat k = n -> n < UINT32_MOD -> (fuel < k)%nat ->
    mix_loop fuel n dst src mul_l mul_r i st = None.
Proof.
  induction k as [|k IH]; intros fuel i st Hi Hn Hlt Hf; [lia|].
  assert (E : (i <? n) = true) by (apply Z.ltb_lt; lia).
  destruct fuel as [|fuel]; cbn [mix_loop]; rewrite E; [reflexivity|].
  rewrite (u32_small (i + 4)) by (unfold UINT32_MOD in *; lia).
  apply IH; lia.
Qed.

Lemma run_blocks_trace (l : list Z) :
  forall st : state,
    st_trace (run_blocks dst src mul_l mul_r l st)
    = st_trace st ++ flat_map (block_events dst src) l.
Proof.
  induction l as [|j l IH]; intros st.
  - cbn. now rewrite app_nil_r.
  - rewrite run_blocks_cons, IH, mix_block_trace.
    cbn [flat_map]. now rewrite app_assoc.
Qed.

(** Whatever the count, the blocks write inside the first
    [min (2*n) 2^32] cells of [dst] only. *)
Lemma run_blocks_frame (n : Z) (k : nat) :
  forall (i : Z) (st : state) (a : Z),
    0 <= i -> i mod 4 = 0 -> i + 4 * Z.of_nat k = n -> n < UINT32_MOD ->
    a < dst \/ dst + 2 * n <= a \/ dst + UINT32_MOD <= a ->
    st_mem (run_blocks dst src mul_l mul_r (block_starts i k) st) a = st_mem st a.
Proof.
  induction k as [|k IH]; intros i st a Hi H4 Hn Hlt Ha; [reflexivity|].
  cbn [block_starts]. rewrite run_blocks_cons.
  rewrite IH; try lia.
  - assert (Hr : 0 <= i < UINT32_MOD) by lia.
    destruct (store_offsets i Hr H4) as (_ & _ & O1 & O2 & O3).
    apply mix_block_frame; try assumption. lia.
  - rewrite <- Z.add_mod_idemp_l, H4 by lia. reflexivity.
Qed.

(** Without wrap-around the blocks from [i] on write the cells
    [dst + 2*i .. dst + 2*n - 1] only. *)
Lemma run_blocks_frame_nowrap (n : Z) (k : nat) :
  forall (i : Z) (st : state) (a : Z),
    0 <= i -> i + 4 * Z.of_nat k = n -> 2 * n <= UINT32_MOD ->
    a < dst + 2 * i \/ dst + 2 * n <= a ->
    st_mem (run_blocks dst src mul_l mul_r (block_starts i k) st) a = st_mem st a.
Proof.
  induction k as [|k IH]; intros i st a Hi Hn Hw Ha; [reflexivity|].
  cbn [block_starts]. rewrite run_blocks_cons.
  rewrite IH by lia.
  apply mix_block_frame_nowrap; lia.
Qed.

End Loop.

(** Without wrap-around, and with the samples still to be read lying
    clear of the cells still to be written, the blocks from [i] on
    produce the interleaved products of the samples [i .. n-1]. *)
Lemma run_blocks_cells (dst src : Z) (gain_l gain_r : float32) (n : Z) (k : nat) :
  forall (i : Z) (st : state) (j : Z),
    0 <= i -> i + 4 * Z.of_nat k = n -> 2 * n <= UINT32_MOD ->
    src + n <= dst + 2 * i \/ dst + 2 * n <= src + i ->
    i <= j < n ->
    let st' := run_blocks dst src (_mm_set1_ps gain_l) (_mm_set1_ps gain_r)
                          (block_starts i k) st in
    st_mem st' (dst + 2 * j) = F32.mul (st_mem st (src + j)) gain_l /\
    st_mem st' (dst + 2 * j + 1) = F32.mul (st_mem st (src + j)) gain_r.
Proof.
  induction k as [|k IH]; intros i st j Hi Hn Hw Hd Hj st'; [lia|].
  subst st'. cbn [block_starts]. rewrite run_blocks_cons.
  set (st1 := mix_block dst src _ _ i st).
  destruct (Z_lt_le_dec j (i + 4)) as [Hlo | Hhi].
  - (* written by this block, untouched by the later ones *)
    rewrite !(run_blocks_frame_nowrap dst src _ _ n k (i + 4) st1) by lia.
    apply mix_block_cells; lia.
  - (* read by a later block, untouched by this one *)
    destruct (IH (i + 4) st1 j) as (Il & Ir); try lia.
    rewrite Il, Ir. unfold st1.
    rewrite mix_block_frame_nowrap by lia. split; reflexivity.
Qed.

(** ** The whole call *)

Lemma block_count (n : Z) :
  0 <= n -> n mod 4 = 0 -> 0 + 4 * Z.of_nat (num_blocks n) = n.
Proof.
  intros Hn H4. unfold num_blocks. rewrite Z2Nat.id by (apply Z.div_pos; lia).
  Z.div_mod_to_equations. lia.
Qed.

(** A count that is a multiple of four passes the assertion, and the call
    returns after [num_samples / 4] blocks. *)
Lemma mix_returns (fuel : nat) (n dst src : Z) (gain_l gain_r : float32) (st : state) :
  is_uint32 n -> n mod 4 = 0 -> (num_blocks n <= fuel)%nat ->
  mix_mono_to_stereo_intrinsics fuel n dst src gain_l gain_r st
  = Some (Returned (mixed n dst src gain_l gain_r st)).
Proof.
  intros [Hn Hlt] H4 Hf. unfold mix_mono_to_stereo_intrinsics, mixed.
  rewrite H4. cbn [Z.eqb].
  rewrite (mix_loop_unroll dst src _ _ n (num_blocks n)); auto using block_count; lia.
Qed.

Lemma mix_starved (fuel : nat) (n dst src : Z) (gain_l gain_r : float32) (st : state) :
  is_uint32 n -> n mod 4 = 0 -> (fuel < num_blocks n)%nat ->
  mix_mono_to_stereo_intrinsics fuel n dst src gain_l gain_r st = None.
Proof.
  intros [Hn Hlt] H4 Hf. unfold mix_mono_to_stereo_intrinsics.
  rewrite H4. cbn [Z.eqb].
  rewrite (mix_loop_starved dst src _ _ n (num_blocks n)); auto using block_count; lia.
Qed.

Lemma mixed_trace (n dst src : Z) (gain_l gain_r : float32) (st : state) :
  st_trace (mixed n dst src gain_l gain_r st)
  = st_trace st ++ flat_map (block_events dst src) (block_starts 0 (num_blocks n)).
Proof. apply run_blocks_trace. Qed.

(** Cells outside the first [min (2*n) 2^32] cells of [dst] keep their
    value, for every count. *)
Lemma mixed_frame (n dst src : Z) (gain_l gain_r : float32) (st : state) (a : Z) :
  is_uint32 n -> n mod 4 = 0 ->
  a < dst \/ dst + 2 * n <= a \/ dst + UINT32_MOD <= a ->
  st_mem (mixed n dst src gain_l gain_r st) a = st_mem st a.
Proof.
  intros [Hn Hlt] H4 Ha. unfold mixed.
  apply (run_blocks_frame dst src _ _ n); auto using block_count; lia.
Qed.

(** The elementwise result for counts up to [2^31], where [2*i] cannot
    wrap. *)
Lemma mixed_cells (n dst src : Z) (gain_l gain_r : float32) (st : state) (i : Z) :
  0 <= n -> 2 * n <= UINT32_MOD -> n mod 4 = 0 ->
  src + n <= dst \/ dst + 2 * n <= src ->
  0 <= i < n ->
  st_mem (mixed n dst src gain_l gain_r st) (dst + 2 * i)
    = F32.mul (st_mem st (src + i)) gain_l /\
  st_mem (mixed n dst src gain_l gain_r st) (dst + 2 * i + 1)
    = F32.mul (st_mem st (src + i)) gain_r.
Proof.
  intros Hn Hw H4 Hd Hi. unfold mixed.
  apply (run_blocks_cells dst src gain_l gain_r n); auto using block_count; lia.
Qed.

(** ** The accesses of the call *)

Lemma block_starts_length (i : Z) (k : nat) : length (block_starts i k) = k.
Proof. revert i. induction k as [|k IH]; intros i; cbn [block_starts length]; auto. Qed.

Section Accesses.

Variables (dst src : Z).

Lemma cells_read_app (t1 t2 : list event) :
  cells_read (t1 ++ t2) = cells_read t1 ++ cells_read t2.
Proof. apply flat_map_app. Qed.

Lemma cells_written_app (t1 t2 : list event) :
  cells_written (t1 ++ t2) = cells_written t1 ++ cells_written t2.
Proof. apply flat_map_app. Qed.

Lemma times_written_app (t1 t2 : list event) (a : Z) :
  times_written (t1 ++ t2) a = (times_written t1 a + times_written t2 a)%nat.
Proof. unfold times_written. rewrite cells_written_app. apply count_occ_app. Qed.

Lemma count_occ_cells4 (p a : Z) :
  count_occ Z.eq_dec (cells4 p) a = if (p <=? a) && (a <? p + 4) then 1%nat else 0%nat.
Proof.
  unfold cells4. cbn [count_occ].
  destruct (Z.leb_spec p a), (Z.ltb_spec a (p + 4)); cbn [andb];
    repeat match goal with
           | |- context [Z.eq_dec ?x ?y] => destruct (Z.eq_dec x y); try lia
           end;
    reflexivity.
Qed.

Lemma blocks_loads (l : list Z) :
  loads (flat_map (block_events dst src) l) = length l.
Proof.
  unfold loads. induction l as [|j l IH]; [reflexivity|].
  cbn [flat_map block_events app filter is_load negb length]. now rewrite IH.
Qed.

Lemma blocks_stores (l : list Z) :
  stores (flat_map (block_events dst src) l) = (2 * length l)%nat.
Proof.
  unfold stores. induction l as [|j l IH]; [reflexivity|].
  cbn [flat_map block_events app filter is_load negb length]. rewrite IH. lia.
Qed.

Lemma blocks_events_length (l : list Z) :
  length (flat_map (block_events dst src) l) = (3 * length l)%nat.
Proof.
  induction l as [|j l IH]; [reflexivity|].
  cbn [flat_map block_events app length]. rewrite IH. lia.
Qed.

(** Every block reads the four samples at its start. *)
Lemma blocks_read_in_range (n : Z) (k : nat) :
  forall (i a : Z),
    0 <= i -> i + 4 * Z.of_nat k = n ->
    In a (cells_read (flat_map (block_events dst src) (block_starts i k))) ->
    src + i <= a < src + n.
Proof.
  induction k as [|k IH]; intros i a Hi Hn Ha; [destruct Ha|].
  cbn [block_starts flat_map] in Ha. rewrite cells_read_app in Ha.
  apply in_app_or in Ha. destruct Ha as [Ha | Ha].
  - cbn in Ha. lia.
  - apply IH in Ha; lia.
Qed.

(** Every block writes inside the destination buffer, wrapped or not. *)
Lemma blocks_written_in_range (n : Z) (k : nat) :
  forall (i a : Z),
    0 <= i -> i mod 4 = 0 -> i + 4 * Z.of_nat k = n -> n < UINT32_MOD ->
    In a (cells_written (flat_map (block_events dst src) (block_starts i k))) ->
    dst <= a < dst + 2 * n /\ a < dst + UINT32_MOD.
Proof.
  induction k as [|k IH]; intros i a Hi H4 Hn Hlt Ha; [destruct Ha|].
  cbn [block_starts flat_map] in Ha. rewrite cells_written_app in Ha.
  apply in_app_or in Ha. destruct Ha as [Ha | Ha].
  - assert (Hr : 0 <= i < UINT32_MOD) by lia.
    destruct (store_offsets i Hr H4) as (E0 & E4 & O1 & O2 & O3).
    cbn [block_events cells_written flat_map cells4 app In] in Ha.
    rewrite E0, E4 in Ha. lia.
  - apply IH in Ha; try lia.
    rewrite <- Z.add_mod_idemp_l, H4 by lia. reflexivity.
Qed.

(** Without wrap-around the blocks from [i] on write each of the cells
    [dst + 2*i .. dst + 2*n - 1] once, and no other. *)
Lemma blocks_written_once (n : Z) (k : nat) :
  forall (i a : Z),
    0 <= i -> i + 4 * Z.of_nat k = n -> 2 * n <= UINT32_MOD ->
    times_written (flat_map (block_events dst src) (block_starts i k)) a
    = if (dst + 2 * i <=? a) && (a <? dst + 2 * n) then 1%nat else 0%nat.
Proof.
  unfold times_written.
  induction k as [|k IH]; intros i a Hi Hn Hw.
  - cbn [block_starts flat_map cells_written count_occ].
    destruct (Z.leb_spec (dst + 2 * i) a), (Z.ltb_spec a (dst + 2 * n));
      cbn [andb]; try reflexivity; lia.
  - cbn [block_starts flat_map]. rewrite cells_written_app, count_occ_app.
    rewrite IH by lia.
    assert (Hw8 : 2 * i + 8 <= UINT32_MOD) by lia.
    destruct (store_offsets_nowrap i Hi Hw8) as (E0 & E4).
    cbn [block_events cells_written flat_map app]. rewrite E0, E4.
    rewrite app_nil_r, count_occ_app, !count_occ_cells4.
    destruct (Z.leb_spec (dst + 2 * i) a); cbn [andb];
      [destruct (Z.ltb_spec a (dst + 2 * i + 4)); cbn [andb] |];
      (destruct (Z.leb_spec (dst + (2 * i + 4)) a); cbn [andb];
       [destruct (Z.ltb_spec a (dst + (2 * i + 4) + 4)); cbn [andb] |]);
      try (exfalso; lia);
      (destruct (Z.leb_spec (dst + 2 * (i + 4)) a); cbn [andb]);
      try (exfalso; lia);
      destruct (Z.ltb_spec a (dst + 2 * n)); cbn [andb];
      try reflexivity; exfalso; lia.
Qed.

End Accesses.

(** ** Single-precision multiplication *)

Module F32Facts.

Import F32.

(** *** Multiplying by zero and by one *)

Lemma mul_pzero_finite (x : float32) :
  is_finite x = true -> is_zero (mul x pzero) = true /\ eqb (mul x pzero) pzero = true.
Proof. destruct x; cbn; intros H; try discriminate; split; reflexivity. Qed.

Lemma mul_pzero_not_finite (x : float32) :
  is_finite x = false -> mul x pzero = S754_nan.
Proof. destruct x; cbn; intros H; try discriminate; reflexivity. Qed.

(** [x * 1.0] is [x]: the product of the mantissas is the mantissa of [x]
    followed by 23 zero bits, which rounding shifts out again, exactly. *)
Lemma mul_one_r (x : float32) : valid x = true -> mul x one = x.
Proof.
  unfold valid, mul.
  destruct x as [s|s| |s m e]; cbn [SFmul one valid_binary]; intros V.
  - now rewrite xorb_false_r.
  - now rewrite xorb_false_r.
  - reflexivity.
  - rewrite xorb_false_r.
    unfold bounded, canonical_mantissa in V.
    apply andb_true_iff in V. destruct V as [C B].
    apply Z.eqb_eq in C.
    rewrite Pos.mul_comm. cbn [Pos.mul].
    unfold binary_round_aux, shr_fexp.
    cbn [Zdigits2 digits2_pos shr_record_of_loc].
    rewrite !Pos2Z.inj_succ.
    match goal with
    | |- context [shr ?r ?e0 ?sh] =>
        replace sh with 23 by (unfold fexp, emin, prec, emax in *; lia)
    end.
    cbn [shr iter_pos shr_1 orb].
    cbn [shr_m loc_of_shr_record round_nearest_even Zdigits2].
    match goal with
    | |- context [shr ?r ?e0 ?sh] =>
        replace sh with 0 by (unfold fexp, emin, prec, emax in *; lia)
    end.
    cbn [shr shr_m].
    replace (e + -23 + 23) with e by lia.
    rewrite B. reflexivity.
Qed.

(** *** Products of floats are floats *)

Lemma digits2_pos_size (p : positive) : digits2_pos p = Pos.size p.
Proof. induction p as [p IH|p IH|]; cbn [digits2_pos Pos.size]; congruence. Qed.

Lemma Zdigits2_log2 (p : positive) : Zdigits2 (Zpos p) = Z.log2 (Zpos p) + 1.
Proof.
  destruct p; cbn [Zdigits2 digits2_pos Z.log2]; try reflexivity.
  all: rewrite Pos2Z.inj_succ, digits2_pos_size; reflexivity.
Qed.

Lemma Zdigits2_nonneg (z : Z) : 0 <= Zdigits2 z.
Proof. destruct z; cbn; lia. Qed.

Lemma Zdigits2_mono (a b : Z) : 0 <= a <= b -> Zdigits2 a <= Zdigits2 b.
Proof.
  intros [Ha Hab]. destruct a as [|a|a]; [apply Zdigits2_nonneg| |lia].
  destruct b as [|b|b]; try lia.
  rewrite !Zdigits2_log2. apply Z.add_le_mono_r, Z.log2_le_mono. exact Hab.
Qed.

(** Shifting [n] bits out removes [n] digits, as long as any are left. *)
Lemma Zdigits2_shiftr (a n : Z) :
  0 <= a -> 0 <= n ->
  Zdigits2 a - n <= Zdigits2 (Z.shiftr a n) /\
  (0 < Z.shiftr a n -> Zdigits2 (Z.shiftr a n) = Zdigits2 a - n).
Proof.
  intros Ha Hn.
  destruct a as [|a|a]; [rewrite Z.shiftr_0_l; cbn; lia| |lia].
  assert (Hs : 0 <= Z.shiftr (Zpos a) n) by (apply Z.shiftr_nonneg; lia).
  pose proof (Z.log2_shiftr (Zpos a) n ltac:(lia)) as L.
  destruct (Z.shiftr (Zpos a) n) as [|q|q] eqn:E; try lia.
  - split; [|lia]. rewrite Zdigits2_log2. cbn [Zdigits2].
    apply Z.shiftr_eq_0_iff in E. lia.
  - rewrite !Zdigits2_log2. rewrite L.
    assert (0 <= Z.log2 (Zpos a) - n).
    { destruct (Z_lt_le_dec (Z.log2 (Zpos a)) n) as [H|H]; [|lia].
      assert (Z.shiftr (Zpos a) n = 0) by (apply Z.shiftr_eq_0_iff; lia). lia. }
    lia.
Qed.

Lemma shr_1_m (r : shr_record) : 0 <= shr_m r -> shr_m (shr_1 r) = Z.shiftr (shr_m r) 1.
Proof.
  destruct r as [m r s]. cbn [shr_m]. intros H.
  rewrite <- Z.div2_spec. destruct m as [|[p|p|]|p]; cbn; try reflexivity; lia.
Qed.

Lemma iter_shr_1_m (p : positive) :
  forall r, 0 <= shr_m r -> shr_m (iter_pos shr_1 p r) = Z.shiftr (shr_m r) (Zpos p).
Proof.
  induction p as [p IH|p IH|]; intros r Hr; cbn [iter_pos].
  - assert (H1 : 0 <= shr_m (shr_1 r))
      by (rewrite shr_1_m by lia; apply Z.shiftr_nonneg; lia).
    assert (H2 : 0 <= shr_m (iter_pos shr_1 p (shr_1 r)))
      by (rewrite IH by lia; apply Z.shiftr_nonneg; lia).
    rewrite IH, IH, shr_1_m by assumption.
    rewrite !Z.shiftr_shiftr by lia. f_equal. lia.
  - assert (H2 : 0 <= shr_m (iter_pos shr_1 p r))
      by (rewrite IH by lia; apply Z.shiftr_nonneg; lia).
    rewrite IH, IH by assumption.
    rewrite !Z.shiftr_shiftr by lia. f_equal. lia.
  - apply shr_1_m; assumption.
Qed.

Lemma shr_nonneg_shift (r : shr_record) (e n : Z) :
  0 <= shr_m r -> 0 <= n ->
  shr_m (fst (shr r e n)) = Z.shiftr (shr_m r) n /\ snd (shr r e n) = e + n.
Proof.
  intros Hr Hn. destruct n as [|p|p]; cbn [shr fst snd]; try lia.
  - rewrite Z.shiftr_0_r. lia.
  - rewrite iter_shr_1_m by assumption. lia.
Qed.

Lemma round_nearest_even_bounds (m : Z) (l : location) :
  m <= round_nearest_even m l <= m + 1.
Proof.
  destruct l as [|[]]; cbn [round_nearest_even]; try lia.
  destruct (Z.even m); lia.
Qed.

Lemma shr_record_of_loc_m (m : Z) (l : location) : shr_m (shr_record_of_loc m l) = m.
Proof. destruct l as [|[]]; reflexivity. Qed.

(** Rounding a mantissa whose exponent is not above the target exponent
    gives a float of the format (or an infinity). *)
Lemma binary_round_aux_valid (s : bool) (M E : Z) (l : location) :
  0 <= M -> E <= fexp prec emax (Zdigits2 M + E) ->
  valid_binary prec emax (binary_round_aux prec emax s M E l) = true.
Proof.
  intros HM HE. unfold binary_round_aux, shr_fexp.
  set (s1 := fexp prec emax (Zdigits2 M + E) - E).
  assert (Hs1 : 0 <= s1) by (unfold s1; lia).
  pose proof (shr_nonneg_shift (shr_record_of_loc M l) E s1) as P1.
  rewrite shr_record_of_loc_m in P1. specialize (P1 HM Hs1).
  destruct (shr (shr_record_of_loc M l) E s1) as [mrs' e'].
  cbn [fst snd] in P1. destruct P1 as [Pm Pe].
  set (M2 := round_nearest_even (shr_m mrs') (loc_of_shr_record mrs')).
  pose proof (round_nearest_even_bounds (shr_m mrs') (loc_of_shr_record mrs')) as B2.
  fold M2 in B2. rewrite Pm in B2.
  assert (H1 : 0 <= Z.shiftr M s1) by (apply Z.shiftr_nonneg; lia).
  assert (HM2 : 0 <= M2) by lia.
  destruct (Zdigits2_shiftr M s1 HM Hs1) as [D1 _].
  pose proof (Zdigits2_mono (Z.shiftr M s1) M2 ltac:(lia)) as D2.
  set (s2 := fexp prec emax (Zdigits2 M2 + e') - e').
  assert (Hs2 : 0 <= s2).
  { unfold s2. subst e' s1. unfold fexp in *. lia. }
  pose proof (shr_nonneg_shift (shr_record_of_loc M2 loc_Exact) e' s2) as P2.
  rewrite shr_record_of_loc_m in P2. specialize (P2 HM2 Hs2).
  cbn [shr_record_of_loc] in P2.
  destruct (shr _ e' s2) as [mrs'' e''].
  cbn [fst snd] in P2. destruct P2 as [Qm Qe].
  rewrite Qm.
  destruct (Zdigits2_shiftr M2 s2 HM2 Hs2) as [_ D3].
  assert (H2 : 0 <= Z.shiftr M2 s2) by (apply Z.shiftr_nonneg; lia).
  destruct (Z.shiftr M2 s2) as [|m|m] eqn:Em; try reflexivity.
  destruct (Z.leb_spec e'' (emax - prec)) as [Hle|Hgt]; [|reflexivity].
  cbn [valid_binary]. unfold bounded, canonical_mantissa.
  apply andb_true_iff. split; [|apply Z.leb_le; exact Hle].
  apply Z.eqb_eq.
  change (Z.pos (digits2_pos m)) with (Zdigits2 (Z.pos m)).
  rewrite D3 by lia. subst e''. unfold s2.
  replace (Zdigits2 M2 - (fexp prec emax (Zdigits2 M2 + e') - e')
           + (e' + (fexp prec emax (Zdigits2 M2 + e') - e')))
    with (Zdigits2 M2 + e') by lia.
  lia.
Qed.

Lemma mul_valid (x y : float32) :
  valid x = true -> valid y = true -> valid (mul x y) = true.
Proof.
  unfold valid, mul.
  destruct x as [sx|sx| |sx mx ex], y as [sy|sy| |sy my ey]; try reflexivity.
  cbn [valid_binary SFmul]. unfold bounded, canonical_mantissa.
  intros Vx Vy.
  apply andb_true_iff in Vx, Vy. destruct Vx as [Cx Bx], Vy as [Cy By].
  apply Z.eqb_eq in Cx, Cy. apply Z.leb_le in Bx, By.
  apply binary_round_aux_valid; [lia|].
  change (Z.pos (digits2_pos mx)) with (Zdigits2 (Z.pos mx)) in Cx.
  change (Z.pos (digits2_pos my)) with (Zdigits2 (Z.pos my)) in Cy.
  rewrite Zdigits2_log2 in *.
  pose proof (Z.log2_mul_below (Z.pos mx) (Z.pos my) ltac:(lia) ltac:(lia)) as L.
  pose proof (Z.log2_nonneg (Z.pos mx)). pose proof (Z.log2_nonneg (Z.pos my)).
  rewrite Pos2Z.inj_mul.
  unfold fexp, emin, prec, emax in *. lia.
Qed.

(** *** Scaling by a power of two *)

(** Multiplying a normal number by [2^j] adds [j] to its exponent, as long
    as the result is a normal number. *)
Lemma mul_pow2_normal (x : float32) (j : Z) :
  normal x = true ->
  emin prec emax <= expo x + j <= emax - prec ->
  mul x (pow2 j) = shift_expo j x.
Proof.
  unfold mul, pow2.
  destruct x as [s|s| |s m e]; cbn [normal expo shift_expo SFmul]; try discriminate.
  intros N R.
  apply andb_true_iff in N. destruct N as [N B].
  apply andb_true_iff in N. destruct N as [D L].
  apply Z.eqb_eq in D. apply Z.leb_le in L, B.
  rewrite xorb_false_r.
  rewrite Pos.mul_comm. cbn [Pos.mul].
  unfold binary_round_aux, shr_fexp.
  cbn [Zdigits2 digits2_pos shr_record_of_loc].
  rewrite !Pos2Z.inj_succ.
  match goal with
  | |- context [shr ?r ?e0 ?sh] =>
      replace sh with 23 by (unfold fexp, emin, prec, emax in *; lia)
  end.
  cbn [shr iter_pos shr_1 orb].
  cbn [shr_m loc_of_shr_record round_nearest_even Zdigits2].
  match goal with
  | |- context [shr ?r ?e0 ?sh] =>
      replace sh with 0 by (unfold fexp, emin, prec, emax in *; lia)
  end.
  cbn [shr shr_m].
  replace (e + (j - 23) + 23) with (e + j) by lia.
  destruct (Z.leb_spec (e + j) (emax - prec)); [reflexivity | lia].
Qed.

Lemma shr_fst_indep (r : shr_record) (e e' n : Z) : fst (shr r e n) = fst (shr r e' n).
Proof. destruct n; reflexivity. Qed.


(** Away from the subnormal range the rounded mantissa, and the amount
    [c] by which rounding raises the exponent, depend on the mantissa
    [M] alone, not on the exponent [E]. *)
Lemma binary_round_aux_unclamped (s : bool) (M : Z) (l : location) :
  0 <= M -> prec <= Zdigits2 M ->
  exists m c,
    0 <= m /\ 0 <= c /\ (0 < m -> Zdigits2 m = prec) /\
    forall E, emin prec emax <= Zdigits2 M + E - prec ->
      binary_round_aux prec emax s M E l = rounded s m (E + c) /\
      emin prec emax <= E + c.
Proof.
  intros HM HD.
  set (s1 := Zdigits2 M - prec).
  assert (Hs1 : 0 <= s1) by (unfold s1; lia).
  set (mrs1 := fst (shr (shr_record_of_loc M l) 0 s1)).
  set (M2 := round_nearest_even (shr_m mrs1) (loc_of_shr_record mrs1)).
  set (s2 := Zdigits2 M2 - prec).
  set (mrs2 := fst (shr (shr_record_of_loc M2 loc_Exact) 0 s2)).
  (* facts that do not depend on the exponent *)
  pose proof (shr_nonneg_shift (shr_record_of_loc M l) 0 s1) as P1.
  rewrite shr_record_of_loc_m in P1. destruct (P1 HM Hs1) as [Pm _]. fold mrs1 in Pm.
  pose proof (round_nearest_even_bounds (shr_m mrs1) (loc_of_shr_record mrs1)) as B2.
  fold M2 in B2. rewrite Pm in B2.
  assert (H1 : 0 <= Z.shiftr M s1) by (apply Z.shiftr_nonneg; lia).
  assert (HM2 : 0 <= M2) by lia.
  destruct (Zdigits2_shiftr M s1 HM Hs1) as [D1 _].
  pose proof (Zdigits2_mono (Z.shiftr M s1) M2 ltac:(lia)) as D2.
  assert (Hs2 : 0 <= s2) by (unfold s2, s1 in *; lia).
  pose proof (shr_nonneg_shift (shr_record_of_loc M2 loc_Exact) 0 s2) as P2.
  rewrite shr_record_of_loc_m in P2. destruct (P2 HM2 Hs2) as [Qm _]. fold mrs2 in Qm.
  destruct (Zdigits2_shiftr M2 s2 HM2 Hs2) as [_ D3].
  exists (shr_m mrs2), (s1 + s2).
  split; [rewrite Qm; apply Z.shiftr_nonneg; lia|].
  split; [lia|].
  split; [rewrite Qm; intros Hp; rewrite D3 by exact Hp; unfold s2; lia|].
  intros E HE. split; [|unfold s1 in *; lia].
  unfold binary_round_aux, shr_fexp.
  replace (fexp prec emax (Zdigits2 M + E) - E) with s1
    by (unfold s1, fexp; lia).
  destruct (shr_nonneg_shift (shr_record_of_loc M l) E s1) as [_ Pe];
    [rewrite shr_record_of_loc_m; exact HM | exact Hs1 |].
  rewrite (surjective_pairing (shr (shr_record_of_loc M l) E s1)).
  rewrite Pe, (shr_fst_indep _ E 0). fold mrs1. fold M2.
  replace (fexp prec emax (Zdigits2 M2 + (E + s1)) - (E + s1)) with s2
    by (unfold s2, s1, fexp in *; lia).
  destruct (shr_nonneg_shift (shr_record_of_loc M2 loc_Exact) (E + s1) s2) as [_ Qe];
    [rewrite shr_record_of_loc_m; exact HM2 | exact Hs2 |].
  rewrite (surjective_pairing (shr (shr_record_of_loc M2 loc_Exact) (E + s1) s2)).
  rewrite Qe, (shr_fst_indep _ (E + s1) 0). fold mrs2.
  replace (E + s1 + s2) with (E + (s1 + s2)) by lia.
  reflexivity.
Qed.


Lemma normal_finite (x : float32) :
  normal x = true ->
  exists s m e, x = S754_finite s m e /\ Zdigits2 (Zpos m) = prec /\
                emin prec emax <= e <= emax - prec.
Proof.
  destruct x as [s|s| |s m e]; cbn [normal]; try discriminate. intros N.
  apply andb_true_iff in N. destruct N as [N B].
  apply andb_true_iff in N. destruct N as [D L].
  apply Z.eqb_eq in D. apply Z.leb_le in L, B.
  exists s, m, e. cbn [Zdigits2]. auto.
Qed.

Lemma normal_intro (s : bool) (m : positive) (e : Z) :
  Zdigits2 (Zpos m) = prec -> emin prec emax <= e <= emax - prec ->
  normal (S754_finite s m e) = true.
Proof.
  cbn [Zdigits2 normal]. intros D [L B].
  apply Z.eqb_eq in D. apply Z.leb_le in L, B. now rewrite D, L, B.
Qed.

(** Scaling by an in-range power of two commutes with a multiplication. *)
Lemma mul_pow2_commutes (x g : float32) (j : Z) :
  scales_exactly j x g = true ->
  mul (mul x (pow2 j)) g = mul (mul x g) (pow2 j).
Proof.
  unfold scales_exactly. intros H.
  repeat (apply andb_true_iff in H; destruct H as [H ?]).
  repeat match goal with
         | H : (_ <=? _) = true |- _ => apply Z.leb_le in H
         end.
  rename H into Nx.
  match goal with H : normal g = true |- _ => rename H into Ng end.
  match goal with H : is_finite (mul x g) = true |- _ => rename H into F1 end.
  match goal with H : is_finite (mul (mul x (pow2 j)) g) = true |- _ => rename H into F2 end.
  rewrite (mul_pow2_normal x j Nx) in * by lia.
  destruct (normal_finite x Nx) as (s & m & e & -> & Dx & Rx).
  destruct (normal_finite g Ng) as (sg & mg & eg & -> & Dg & Rg).
  cbn [expo shift_expo] in *.
  unfold mul in F1, F2 |- *. cbn [SFmul] in F1, F2 |- *.
  fold (mul (binary_round_aux prec emax (xorb s sg) (Z.pos (m * mg)) (e + eg) loc_Exact) (pow2 j)).
  assert (DM : prec <= Zdigits2 (Z.pos (m * mg))).
  { rewrite Zdigits2_log2 in *. rewrite Pos2Z.inj_mul.
    pose proof (Z.log2_mul_below (Z.pos m) (Z.pos mg) ltac:(lia) ltac:(lia)).
    unfold prec in *. lia. }
  assert (DM' : 47 <= Zdigits2 (Z.pos (m * mg))).
  { rewrite Zdigits2_log2 in *. rewrite Pos2Z.inj_mul.
    pose proof (Z.log2_mul_below (Z.pos m) (Z.pos mg) ltac:(lia) ltac:(lia)).
    unfold prec in *. lia. }
  destruct (binary_round_aux_unclamped (xorb s sg) (Z.pos (m * mg)) loc_Exact
              ltac:(lia) DM) as (m2 & c & Hm2 & Hc & Dm2 & R).
  destruct (R (e + eg)) as [R1 L1]; [unfold prec in *; lia|].
  destruct (R (e + j + eg)) as [R2 L2]; [unfold prec in *; lia|].
  rewrite R1 in *. rewrite R2 in *. clear R R1 R2.
  destruct m2 as [|p|p]; cbn [rounded] in *;
    [unfold mul, pow2; cbn [SFmul]; now rewrite xorb_false_r | | lia].
  destruct (Z.leb_spec (e + eg + c) (emax - prec)); [|discriminate].
  destruct (Z.leb_spec (e + j + eg + c) (emax - prec)); [|discriminate].
  rewrite mul_pow2_normal.
  - cbn [shift_expo]. f_equal. lia.
  - apply normal_intro; [apply Dm2; lia | lia].
  - cbn [expo]. lia.
Qed.

(** *** How far a rounded product is from the exact one *)

Lemma shr_1_stands_for (M n : Z) (r : shr_record) :
  0 <= n -> 0 <= shr_m r -> shr_stands_for M n r -> shr_stands_for M (n + 1) (shr_1 r).
Proof.
  intros Hn Hm (u & E & Hu & S).
  destruct r as [m rb sb]. cbn [shr_m shr_r shr_s] in *.
  assert (P : 2 ^ (n + 1) = 2 * 2 ^ n) by (rewrite Z.pow_add_r by lia; lia).
  assert (H0 : 0 < 2 ^ n) by (apply Z.pow_pos_nonneg; lia).
  exists ((if rb then 1 else 0) * 2 ^ n + u).
  assert (Sb : orb rb sb = negb ((if rb then 1 else 0) * 2 ^ n + u =? 0)).
  { rewrite S. destruct rb; cbn [orb].
    - symmetry. apply negb_true_iff, Z.eqb_neq. lia.
    - replace (0 * 2 ^ n + u) with u by lia. reflexivity. }
  destruct m as [|[p|p|]|p]; try lia; cbn [shr_1 shr_m shr_r shr_s];
    (split; [rewrite P; destruct rb; lia | split; [rewrite P; destruct rb; lia | exact Sb]]).
Qed.

Lemma iter_shr_1_stands_for (M : Z) (p : positive) :
  forall n r, 0 <= n -> 0 <= shr_m r -> shr_stands_for M n r ->
              shr_stands_for M (n + Zpos p) (iter_pos shr_1 p r).
Proof.
  induction p as [p IH|p IH|]; intros n r Hn Hm H; cbn [iter_pos].
  - assert (H1 : 0 <= shr_m (shr_1 r))
      by (rewrite shr_1_m by lia; apply Z.shiftr_nonneg; lia).
    assert (H2 : 0 <= shr_m (iter_pos shr_1 p (shr_1 r)))
      by (rewrite iter_shr_1_m by lia; apply Z.shiftr_nonneg; lia).
    replace (n + Z.pos p~1) with (n + 1 + Z.pos p + Z.pos p) by lia.
    apply IH; [lia | assumption |]. apply IH; [lia | assumption |].
    apply shr_1_stands_for; assumption.
  - assert (H2 : 0 <= shr_m (iter_pos shr_1 p r))
      by (rewrite iter_shr_1_m by lia; apply Z.shiftr_nonneg; lia).
    replace (n + Z.pos p~0) with (n + Z.pos p + Z.pos p) by lia.
    apply IH; [lia | assumption |]. apply IH; assumption.
  - apply shr_1_stands_for; assumption.
Qed.

Lemma shr_stands_for_exact (M : Z) : shr_stands_for M 0 (shr_record_of_loc M loc_Exact).
Proof. exists 0. cbn. lia. Qed.

(** Shifting [n] bits out and rounding to nearest leaves an error of at
    most half a unit of the bit kept last. *)
Lemma round_after_shift (M n : Z) (r : shr_record) :
  0 <= n -> shr_stands_for M n r ->
  let M2 := round_nearest_even (shr_m r) (loc_of_shr_record r) in
  - 2 ^ n <= 2 * (M2 * 2 ^ n - M) <= 2 ^ n.
Proof.
  intros Hn (u & E & Hu & S). cbv zeta.
  destruct r as [m rb sb]. cbn [shr_m shr_r shr_s] in *.
  assert (H0 : 0 < 2 ^ n) by (apply Z.pow_pos_nonneg; lia).
  destruct rb, sb; cbn [loc_of_shr_record round_nearest_even];
    symmetry in S; try (apply negb_true_iff, Z.eqb_neq in S);
    try (apply negb_false_iff, Z.eqb_eq in S); try lia.
  destruct (Z.even m); lia.
Qed.

Lemma shr_stands_for_shift (M n : Z) :
  0 <= M -> 0 <= n ->
  shr_stands_for M n (fst (shr (shr_record_of_loc M loc_Exact) 0 n)).
Proof.
  intros HM Hn. destruct n as [|p|p]; cbn [shr fst]; try lia.
  - apply shr_stands_for_exact.
  - apply (iter_shr_1_stands_for M p 0); [lia | cbn; lia | apply shr_stands_for_exact].
Qed.

Lemma Zdigits2_bounds (z : Z) :
  0 < z -> 2 ^ (Zdigits2 z - 1) <= z < 2 ^ Zdigits2 z.
Proof.
  intros Hz. destruct z as [|p|p]; try lia.
  rewrite Zdigits2_log2.
  pose proof (Z.log2_spec (Z.pos p) ltac:(lia)) as L.
  replace (Z.log2 (Z.pos p) + 1 - 1) with (Z.log2 (Z.pos p)) by lia.
  replace (Z.log2 (Z.pos p) + 1) with (Z.succ (Z.log2 (Z.pos p))) by lia.
  exact L.
Qed.

Lemma Zdigits2_unique (z d : Z) :
  0 < d -> 2 ^ (d - 1) <= z < 2 ^ d -> Zdigits2 z = d.
Proof.
  intros Hd Hz.
  assert (0 < z) by (pose proof (Z.pow_pos_nonneg 2 (d - 1)); lia).
  destruct z as [|p|p]; try lia.
  rewrite Zdigits2_log2.
  rewrite (Z.log2_unique (Z.pos p) (d - 1)); [lia | lia |].
  replace (Z.succ (d - 1)) with d by lia. exact Hz.
Qed.

(** What rounding does to a mantissa [M] of 24 bits or more, away from
    the subnormal range: it keeps a mantissa [p] of exactly 24 bits and
    raises the exponent by [c], off by half a unit of [2^c] at most. *)
Lemma binary_round_aux_error (s : bool) (M : Z) :
  0 < M -> prec <= Zdigits2 M ->
  exists p c,
    Zdigits2 (Zpos p) = prec /\
    Zdigits2 M - prec <= c <= Zdigits2 M - prec + 1 /\
    - 2 ^ c <= 2 * (Zpos p * 2 ^ c - M) <= 2 ^ c /\
    forall E, emin prec emax <= Zdigits2 M + E - prec ->
      binary_round_aux prec emax s M E loc_Exact
      = (if E + c <=? emax - prec then S754_finite s p (E + c) else S754_infinity s) /\
      emin prec emax <= E + c.
Proof.
  intros HM HD.
  set (s1 := Zdigits2 M - prec).
  assert (Hs1 : 0 <= s1) by (unfold s1; lia).
  set (mrs1 := fst (shr (shr_record_of_loc M loc_Exact) 0 s1)).
  set (M2 := round_nearest_even (shr_m mrs1) (loc_of_shr_record mrs1)).
  pose proof (shr_stands_for_shift M s1 ltac:(lia) Hs1) as Rep. fold mrs1 in Rep.
  pose proof (round_after_shift M s1 mrs1 Hs1 Rep) as Err. cbv zeta in Err. fold M2 in Err.
  destruct (shr_nonneg_shift (shr_record_of_loc M loc_Exact) 0 s1) as [Pm _];
    [cbn; lia | exact Hs1 |].
  fold mrs1 in Pm. cbn [shr_record_of_loc shr_m] in Pm.
  pose proof (round_nearest_even_bounds (shr_m mrs1) (loc_of_shr_record mrs1)) as B2.
  fold M2 in B2. rewrite Pm in B2.
  destruct (Zdigits2_shiftr M s1 ltac:(lia) Hs1) as [D1 D1'].
  assert (Hpos : 0 < Z.shiftr M s1).
  { destruct (Z.shiftr M s1) as [|q|q] eqn:Eq; try lia.
    - cbn [Zdigits2] in D1. unfold s1, prec in *. lia.
    - pose proof (Z.shiftr_nonneg M s1). lia. }
  specialize (D1' Hpos).
  pose proof (Zdigits2_bounds (Z.shiftr M s1) Hpos) as Bm. rewrite D1' in Bm.
  replace (Zdigits2 M - s1) with prec in Bm by (unfold s1; lia).
  assert (P0 : 0 < 2 ^ s1) by (apply Z.pow_pos_nonneg; lia).
  (* the facts about the exponent, shared by the two cases *)
  assert (Step1 : forall E, emin prec emax <= Zdigits2 M + E - prec ->
            shr_fexp prec emax M E loc_Exact = (mrs1, E + s1)).
  { intros E HE. unfold shr_fexp.
    replace (fexp prec emax (Zdigits2 M + E) - E) with s1 by (unfold s1, fexp; lia).
    destruct (shr_nonneg_shift (shr_record_of_loc M loc_Exact) E s1) as [_ Pe];
      [cbn; lia | exact Hs1 |].
    rewrite (surjective_pairing (shr (shr_record_of_loc M loc_Exact) E s1)).
    rewrite Pe, (shr_fst_indep _ E 0). reflexivity. }
  destruct (Z_lt_le_dec M2 (2 ^ prec)) as [Small | Carry].
  - (* no carry: the rounded mantissa has 24 bits *)
    assert (D2 : Zdigits2 M2 = prec) by (apply Zdigits2_unique; unfold prec in *; lia).
    destruct M2 as [|p|p] eqn:EM2; try (unfold prec in *; cbn in Bm; lia).
    exists p, s1. split; [exact D2|]. split; [unfold s1; lia|]. split; [exact Err|].
    intros E HE. split; [|unfold s1 in *; lia].
    unfold binary_round_aux. rewrite (Step1 E HE). fold M2. rewrite EM2.
    unfold shr_fexp. rewrite D2.
    replace (fexp prec emax (prec + (E + s1)) - (E + s1)) with 0
      by (unfold s1, fexp in *; lia).
    cbn [shr_record_of_loc shr shr_m]. reflexivity.
  - (* carry: the rounded mantissa is [2^24], shifted once more *)
    assert (EM2 : M2 = 2 ^ prec) by lia.
    exists (8388608%positive), (s1 + 1).
    split; [reflexivity|]. split; [unfold s1; lia|].
    assert (P1 : 2 ^ (s1 + 1) = 2 * 2 ^ s1) by (rewrite Z.pow_add_r by lia; lia).
    split; [rewrite P1; rewrite EM2 in Err; unfold prec in Err;
            change (2 ^ 24) with 16777216 in Err; lia|].
    intros E HE. split; [|unfold s1 in *; lia].
    unfold binary_round_aux. rewrite (Step1 E HE). fold M2. rewrite EM2.
    unfold shr_fexp. change (Zdigits2 (2 ^ prec)) with (prec + 1).
    replace (fexp prec emax (prec + 1 + (E + s1)) - (E + s1)) with 1
      by (unfold s1, fexp in *; lia).
    cbn. replace (E + s1 + 1) with (E + (s1 + 1)) by lia. reflexivity.
Qed.


Lemma normal_bounds (s : bool) (m : positive) (e : Z) :
  normal (S754_finite s m e) = true ->
  8388608 <= Zpos m < 16777216 /\ Zdigits2 (Zpos m) = prec /\
  emin prec emax <= e <= emax - prec.
Proof.
  intros N. destruct (normal_finite _ N) as (s' & m' & e' & E & D & R).
  inversion E; subst s' m' e'.
  pose proof (Zdigits2_bounds (Zpos m) ltac:(lia)) as B. rewrite D in B.
  unfold prec in B at 1 2. change (2 ^ (24 - 1)) with 8388608 in B.
  change (2 ^ 24) with 16777216 in B. auto.
Qed.

(** The product of two normal numbers that stays in the normal range: a
    normal number, off the exact product by half a unit in its last place
    at most. *)
Lemma mul_normal_error (sx sy : bool) (mx my : positive) (ex ey : Z) :
  normal (S754_finite sx mx ex) = true -> normal (S754_finite sy my ey) = true ->
  emin prec emax - 23 <= ex + ey ->
  is_finite (mul (S754_finite sx mx ex) (S754_finite sy my ey)) = true ->
  exists p c,
    mul (S754_finite sx mx ex) (S754_finite sy my ey)
    = S754_finite (xorb sx sy) p (ex + ey + c) /\
    normal (S754_finite (xorb sx sy) p (ex + ey + c)) = true /\
    23 <= c /\
    - 2 ^ c <= 2 * (Zpos p * 2 ^ c - Zpos mx * Zpos my) <= 2 ^ c.
Proof.
  intros Nx Ny Hr Hf.
  destruct (normal_bounds _ _ _ Nx) as (Bx & Dx & Rx).
  destruct (normal_bounds _ _ _ Ny) as (By & Dy & Ry).
  unfold mul in *. cbn [SFmul] in *.
  assert (DM : 47 <= Zdigits2 (Z.pos (mx * my))).
  { rewrite Zdigits2_log2 in *. rewrite Pos2Z.inj_mul.
    pose proof (Z.log2_mul_below (Z.pos mx) (Z.pos my) ltac:(lia) ltac:(lia)).
    unfold prec in *. lia. }
  destruct (binary_round_aux_error (xorb sx sy) (Z.pos (mx * my)) ltac:(lia)
              ltac:(unfold prec; lia)) as (p & c & Dp & Hc & Err & R).
  destruct (R (ex + ey)) as [Eq Lo]; [unfold prec in *; lia|].
  rewrite Eq in Hf |- *.
  destruct (Z.leb_spec (ex + ey + c) (emax - prec)); [|discriminate].
  exists p, c. split; [reflexivity|].
  split; [apply normal_intro; [exact Dp | lia]|].
  split; [unfold prec in *; lia|].
  rewrite Pos2Z.inj_mul in Err. exact Err.
Qed.

(** Two roundings in a row: [P = x * y * g] is rounded as [x * y] first,
    to [p1 * a1], and the product with [g] then, to [pA * a2]. *)
Lemma two_roundings (P xy g p1 pA a1 a2 : Z) :
  0 < a1 -> 0 < a2 -> 0 < g -> g < 2 * a2 -> P = xy * g ->
  - a1 <= 2 * (p1 * a1 - xy) <= a1 ->
  - a2 <= 2 * (pA * a2 - p1 * g) <= a2 ->
  - (3 * (a1 * a2)) < 2 * (pA * (a1 * a2) - P) < 3 * (a1 * a2).
Proof.
  intros H1 H2 Hg Hg2 -> E1 E2.
  assert (S1 : - (a1 * a2) <= 2 * (pA * a2 - p1 * g) * a1 <= a1 * a2) by nia.
  assert (S2 : - (a1 * g) <= 2 * (p1 * a1 - xy) * g <= a1 * g) by nia.
  assert (S3 : a1 * g < 2 * (a1 * a2)) by nia.
  nia.
Qed.

(** Two numbers within a unit and a half of [P], in units [A] and
    [A * D], are within three of the larger units of each other. *)
Lemma gap_scaled (A D pA pB P : Z) :
  0 < A -> 1 <= D ->
  - (3 * A) < 2 * (pA * A - P) < 3 * A ->
  - (3 * (A * D)) < 2 * (pB * (A * D) - P) < 3 * (A * D) ->
  - (3 * D) <= pA - pB * D <= 3 * D.
Proof.
  intros HA HD GA GB.
  assert (E : 2 * (A * (pA - pB * D)) = 2 * (pA * A - P) - 2 * (pB * (A * D) - P)) by ring.
  assert (U : A * (2 * (pA - pB * D)) < A * (6 * D + 1)) by nia.
  assert (L : A * (- (6 * D) - 1) < A * (2 * (pA - pB * D))) by nia.
  apply Z.mul_lt_mono_pos_l in U, L; lia.
Qed.

Lemma mul_mul_close (x k g : float32) :
  normal x = true -> normal k = true -> normal g = true ->
  emin prec emax - 23 <= expo x + expo k ->
  emin prec emax - 23 <= expo x + expo g ->
  emin prec emax - 46 <= expo x + expo k + expo g ->
  is_finite (mul x k) = true -> is_finite (mul x g) = true ->
  is_finite (mul (mul x k) g) = true -> is_finite (mul (mul x g) k) = true ->
  close_to 3 (mul (mul x k) g) (mul (mul x g) k) = true.
Proof.
  intros Nx Nk Ng Rk Rg Rkg Fk Fg Fkg Fgk.
  destruct (normal_finite x Nx) as (sx & mx & ex & -> & _ & _).
  destruct (normal_finite k Nk) as (sk & mk & ek & -> & _ & _).
  destruct (normal_finite g Ng) as (sg & mg & eg & -> & _ & _).
  cbn [expo] in *.
  destruct (normal_bounds _ _ _ Nx) as (Bx & _ & _).
  destruct (normal_bounds _ _ _ Nk) as (Bk & _ & _).
  destruct (normal_bounds _ _ _ Ng) as (Bg & _ & _).
  destruct (mul_normal_error sx sk mx mk ex ek Nx Nk Rk Fk) as (p1 & c1 & E1 & N1 & C1 & R1).
  destruct (mul_normal_error sx sg mx mg ex eg Nx Ng Rg Fg) as (q1 & d1 & E2 & N2 & D1 & R2).
  rewrite E1 in Fkg |- *. rewrite E2 in Fgk |- *.
  destruct (mul_normal_error _ sg p1 mg _ eg N1 Ng ltac:(lia) Fkg)
    as (pA & c2 & EA & _ & C2 & RA).
  destruct (mul_normal_error _ sk q1 mk _ ek N2 Nk ltac:(lia) Fgk)
    as (pB & d2 & EB & _ & D2 & RB).
  rewrite EA, EB. cbn [close_to].
  apply andb_true_iff. split; [destruct sx, sk, sg; reflexivity|].
  apply Z.leb_le.
  set (eA := ex + ek + c1 + eg + c2). set (eB := ex + eg + d1 + ek + d2).
  assert (Pa1 : 0 < 2 ^ c1) by (apply Z.pow_pos_nonneg; lia).
  assert (Pa2 : 8388608 <= 2 ^ c2)
    by (change 8388608 with (2 ^ 23); apply Z.pow_le_mono_r; lia).
  assert (Pb1 : 0 < 2 ^ d1) by (apply Z.pow_pos_nonneg; lia).
  assert (Pb2 : 8388608 <= 2 ^ d2)
    by (change 8388608 with (2 ^ 23); apply Z.pow_le_mono_r; lia).
  pose proof (two_roundings (Zpos mx * Zpos mk * Zpos mg) (Zpos mx * Zpos mk) (Zpos mg)
                (Zpos p1) (Zpos pA) (2 ^ c1) (2 ^ c2)
                Pa1 ltac:(lia) ltac:(lia) ltac:(lia) eq_refl R1 RA) as GA.
  pose proof (two_roundings (Zpos mx * Zpos mk * Zpos mg) (Zpos mx * Zpos mg) (Zpos mk)
                (Zpos q1) (Zpos pB) (2 ^ d1) (2 ^ d2)
                Pb1 ltac:(lia) ltac:(lia) ltac:(lia) ltac:(ring) R2 RB) as GB.
  rewrite <- !Z.pow_add_r in GA, GB by lia.
  destruct (Z_le_gt_dec eA eB) as [Le | Gt].
  - rewrite Z.min_l, Z.max_r by lia.
    replace (eA - eA) with 0 by lia. rewrite Z.pow_0_r, Z.mul_1_r.
    assert (Hd : 2 ^ (d1 + d2) = 2 ^ (c1 + c2) * 2 ^ (eB - eA)).
    { rewrite <- Z.pow_add_r by (unfold eA, eB in *; lia). f_equal. unfold eA, eB. lia. }
    assert (Q : 0 < 2 ^ (c1 + c2)) by (apply Z.pow_pos_nonneg; lia).
    assert (Q' : 1 <= 2 ^ (eB - eA))
      by (pose proof (Z.pow_pos_nonneg 2 (eB - eA)); lia).
    rewrite Hd in GB.
    apply Z.abs_le. apply (gap_scaled (2 ^ (c1 + c2)) _ _ _ _ Q Q' GA GB).
  - rewrite Z.min_r, Z.max_l by lia.
    replace (eB - eB) with 0 by lia. rewrite Z.pow_0_r, Z.mul_1_r.
    assert (Hd : 2 ^ (c1 + c2) = 2 ^ (d1 + d2) * 2 ^ (eA - eB)).
    { rewrite <- Z.pow_add_r by (unfold eA, eB in *; lia). f_equal. unfold eA, eB. lia. }
    assert (Q : 0 < 2 ^ (d1 + d2)) by (apply Z.pow_pos_nonneg; lia).
    assert (Q' : 1 <= 2 ^ (eA - eB))
      by (pose proof (Z.pow_pos_nonneg 2 (eA - eB)); lia).
    rewrite Hd in GA.
    apply Z.abs_le.
    pose proof (gap_scaled (2 ^ (d1 + d2)) _ _ _ _ Q Q' GB GA). lia.
Qed.


(** Rounding gives a zero, a number or an infinity of the sign it was
    given, or a NaN. *)
Lemma binary_round_aux_sign (s : bool) (M E : Z) (l : location) :
  match binary_round_aux prec emax s M E l with
  | S754_zero s' | S754_infinity s' | S754_finite s' _ _ => s' = s
  | S754_nan => True
  end.
Proof.
  unfold binary_round_aux.
  destruct (shr_fexp prec emax M E l) as [mrs' e'].
  destruct (shr_fexp prec emax _ e' loc_Exact) as [mrs'' e''].
  destruct (shr_m mrs'') as [|p|p]; [reflexivity | | exact I].
  destruct (e'' <=? emax - prec); reflexivity.
Qed.

(** A finite product times a zero is the zero of the product of the
    signs. *)
Lemma mul_finite_zero (sx sy : bool) (mx my : positive) (ex ey : Z) (sz : bool) :
  is_finite (mul (S754_finite sx mx ex) (S754_finite sy my ey)) = true ->
  mul (mul (S754_finite sx mx ex) (S754_finite sy my ey)) (S754_zero sz)
  = S754_zero (xorb (xorb sx sy) sz).
Proof.
  unfold mul. cbn [SFmul]. intros F.
  pose proof (binary_round_aux_sign (xorb sx sy) (Z.pos (mx * my)) (ex + ey) loc_Exact) as S.
  destruct (binary_round_aux _ _ _ _ _ _) as [s'|s'| |s' m' e'];
    try discriminate; subst s'; reflexivity.
Qed.

Lemma mul_mul_safe (x k g : float32) :
  scale_safe x k g = true ->
  close_to 3 (mul (mul x k) g) (mul (mul x g) k) = true.
Proof.
  unfold scale_safe. intros H.
  apply andb_true_iff in H. destruct H as [H Hx].
  apply andb_true_iff in H. destruct H as [Fk Fg].
  destruct x as [sx|sx| |sx mx ex].
  - (* a zero sample *)
    destruct k as [sk|sk| |sk mk ek], g as [sg|sg| |sg mg eg]; try discriminate;
      cbn; destruct sx, sk, sg; reflexivity.
  - (* an infinite sample *)
    destruct k as [sk|sk| |sk mk ek], g as [sg|sg| |sg mg eg]; try discriminate;
      cbn; try reflexivity; destruct sx, sk, sg; reflexivity.
  - (* a NaN sample *)
    destruct k, g; reflexivity.
  - destruct (is_zero k || is_zero g) eqn:Z0.
    + (* a zero factor *)
      apply andb_true_iff in Hx. destruct Hx as [Fxk Fxg].
      destruct k as [sk|sk| |sk mk ek], g as [sg|sg| |sg mg eg]; try discriminate.
      * cbn. destruct sx, sk, sg; reflexivity.
      * rewrite (mul_finite_zero sx sg mx mg ex eg sk Fxg).
        cbn. destruct sx, sk, sg; reflexivity.
      * rewrite (mul_finite_zero sx sk mx mk ex ek sg Fxk).
        cbn. destruct sx, sk, sg; reflexivity.
    + (* three normal numbers *)
      repeat (apply andb_true_iff in Hx; destruct Hx as [Hx ?]).
      repeat match goal with
             | H : (_ <=? _) = true |- _ => apply Z.leb_le in H
             end.
      apply mul_mul_close; try assumption.
      apply normal_intro; [cbn [Zdigits2]; apply Z.eqb_eq; assumption | lia].
Qed.

End F32Facts.

(** * The kernel's contract *)

(** ** Elementwise result *)

(** For a count that is a multiple of four and at most [2^31], and a
    destination that does not overlap the source, the call returns and has
    put [src[i] * gain_l] into [dst[2*i]] and [src[i] * gain_r] into
    [dst[2*i+1]], one single-precision multiplication each. *)
Lemma mix_elementwise (fuel : nat) (n dst src : Z) (gain_l gain_r : float32) (st : state) :
  0 <= n -> 2 * n <= UINT32_MOD -> n mod 4 = 0 ->
  src + n <= dst \/ dst + 2 * n <= src ->
  (num_blocks n <= fuel)%nat ->
  exists st',
    mix_mono_to_stereo_intrinsics fuel n dst src gain_l gain_r st = Some (Returned st') /\
    forall i, 0 <= i < n ->
      st_mem st' (dst + 2 * i) = F32.mul (st_mem st (src + i)) gain_l /\
      st_mem st' (dst + 2 * i + 1) = F32.mul (st_mem st (src + i)) gain_r.
Proof.
  intros Hn Hw H4 Hd Hf.
  exists (mixed n dst src gain_l gain_r st). split.
  - apply mix_returns; [unfold is_uint32, UINT32_MOD in *; lia | assumption | assumption].
  - intros i Hi. apply mixed_cells; assumption.
Qed.

Lemma wrap_count_ok : is_uint32 wrap_count /\ wrap_count mod 4 = 0.
Proof. unfold is_uint32, wrap_count, UINT32_MOD. split; [lia | reflexivity]. Qed.

(** C1, at [num_samples = 2^31 + 4].  The count is a multiple of four and
    fits [uint32_t]; the call returns, and the cell [dst[2*i]] of the
    sample [i = 2^31] still holds what it held before the call, whatever
    [src[i] * gain_l] is: the store offset [2*i] was computed modulo
    [2^32].  With a memory of [1.0] everywhere and a gain of [2.0] the
    cell holds [1.0] where the product is [2.0]. *)
Theorem mix_large_count_misses_cells :
  (0 <= wrap_sample < wrap_count) /\
  (forall dst src gain_l gain_r st,
      exists fuel st',
        mix_mono_to_stereo_intrinsics fuel wrap_count dst src gain_l gain_r st
        = Some (Returned st') /\
        st_mem st' (dst + 2 * wrap_sample) = st_mem st (dst + 2 * wrap_sample)) /\
  (exists fuel st',
      mix_mono_to_stereo_intrinsics fuel wrap_count 4294967296 0 f2 f2
                                    (mk_state (fun _ => f1) [])
      = Some (Returned st') /\
      st_mem st' (4294967296 + 2 * wrap_sample) = f1 /\
      F32.mul f1 f2 = f2 /\ f1 <> f2).
Proof.
  destruct wrap_count_ok as [Hu H4].
  assert (G : forall dst src gain_l gain_r st,
             exists fuel st',
               mix_mono_to_stereo_intrinsics fuel wrap_count dst src gain_l gain_r st
               = Some (Returned st') /\
               st_mem st' (dst + 2 * wrap_sample) = st_mem st (dst + 2 * wrap_sample)).
  { intros dst src gain_l gain_r st.
    exists (num_blocks wrap_count), (mixed wrap_count dst src gain_l gain_r st). split.
    - apply mix_returns; auto.
    - apply mixed_frame; auto. unfold wrap_sample, UINT32_MOD. lia. }
  split; [unfold wrap_sample, wrap_count; lia|]. split; [exact G|].
  destruct (G 4294967296 0 f2 f2 (mk_state (fun _ => f1) [])) as (fuel & st' & R & M).
  exists fuel, st'. split; [exact R|]. split; [exact M|].
  split; [reflexivity | discriminate].
Qed.

(** ** The assertion *)

(** C2.  A count that is not a multiple of four fails the assertion: the
    call aborts, whatever the fuel, before any load or store, in the
    state it was entered in (memory and trace unchanged: nothing is
    truncated and nothing is written).  This holds in particular for
    [num_samples = 5]. *)
Theorem mix_aborts_on_unaligned_count
        (fuel : nat) (n dst src : Z) (gain_l gain_r : float32) (st : state) :
  n mod 4 <> 0 ->
  mix_mono_to_stereo_intrinsics fuel n dst src gain_l gain_r st = Some (Aborted st).
Proof.
  intros H. unfold mix_mono_to_stereo_intrinsics.
  apply Z.eqb_neq in H. rewrite H. reflexivity.
Qed.

Lemma mix_aborts_on_unaligned_count_witness :
  5 mod 4 <> 0 /\
  mix_mono_to_stereo_intrinsics 0 5 100 0 f0_5 f2 (state_of_list [f1; f2; f3; f4; f6])
  = Some (Aborted (state_of_list [f1; f2; f3; f4; f6])).
Proof.
  split; [discriminate|].
  apply (mix_aborts_on_unaligned_count 0 5 100 0 f0_5 f2). discriminate.
Defined.

(** ** The empty buffer *)

(** C9.  [num_samples = 0] passes the assertion and the loop body is never
    entered: the call returns, even without fuel, in the state it was
    entered in, so that nothing was read and no cell of [dst] changed. *)
Theorem mix_zero_samples
        (fuel : nat) (dst src : Z) (gain_l gain_r : float32) (st : state) :
  mix_mono_to_stereo_intrinsics fuel 0 dst src gain_l gain_r st = Some (Returned st).
Proof. destruct fuel; reflexivity. Qed.

(** ** The smallest block *)

(** C6.  For [num_samples = 4] the call runs one block: one load of the
    four samples and two stores, which fill the eight cells [dst[0..7]]
    with the interleaved products and touch no other cell.  On
    [src = [1.0; 2.0; 3.0; 4.0]] with gains [0.5] and [2.0] the
    destination becomes [[0.5; 2.0; 1.0; 4.0; 1.5; 6.0; 2.0; 8.0]]. *)
Theorem mix_one_block :
  (forall (fuel : nat) (dst src : Z) (gain_l gain_r : float32) (st : state),
      (1 <= fuel)%nat ->
      src + 4 <= dst \/ dst + 8 <= src ->
      exists st',
        mix_mono_to_stereo_intrinsics fuel 4 dst src gain_l gain_r st = Some (Returned st') /\
        st_trace st' = st_trace st ++ [EvLoadu (src + 0); EvStoreu (dst + 0); EvStoreu (dst + 4)] /\
        (forall i, 0 <= i < 4 ->
           st_mem st' (dst + 2 * i) = F32.mul (st_mem st (src + i)) gain_l /\
           st_mem st' (dst + 2 * i + 1) = F32.mul (st_mem st (src + i)) gain_r) /\
        (forall a, a < dst \/ dst + 8 <= a -> st_mem st' a = st_mem st a)) /\
  (exists st',
      mix_mono_to_stereo_intrinsics 1 4 100 0 f0_5 f2 (state_of_list [f1; f2; f3; f4])
      = Some (Returned st') /\
      read_buf (st_mem st') 100 8 = [f0_5; f2; f1; f4; f1_5; f6; f2; f8]).
Proof.
  split.
  - intros fuel dst src gain_l gain_r st Hf Hd.
    exists (mixed 4 dst src gain_l gain_r st).
    assert (Hu : is_uint32 4) by (unfold is_uint32, UINT32_MOD; lia).
    split; [apply mix_returns; auto|]. split; [|split].
    + rewrite mixed_trace. reflexivity.
    + intros i Hi. apply mixed_cells; try assumption; try reflexivity; try lia.
      unfold UINT32_MOD. lia.
    + intros a Ha. apply mixed_frame; auto. lia.
  - eexists. split; [reflexivity|]. vm_compute. reflexivity.
Qed.

Lemma mix_one_block_witness :
  exists st',
    mix_mono_to_stereo_intrinsics 1 4 100 0 f0_5 f2 (state_of_list [f1; f2; f3; f4])
    = Some (Returned st') /\
    st_trace st' = [EvLoadu (0 + 0); EvStoreu (100 + 0); EvStoreu (100 + 4)] /\
    st_mem st' (100 + 2 * 3) = F32.mul f4 f0_5 /\
    st_mem st' (100 + 2 * 3 + 1) = F32.mul f4 f2.
Proof.
  destruct mix_one_block as [General _].
  destruct (General 1%nat 100 0 f0_5 f2 (state_of_list [f1; f2; f3; f4]))
    as (st' & R & T & C & _); [lia | lia |].
  exists st'. split; [exact R|]. split; [exact T|].
  apply (C 3). lia.
Defined.

(** ** The source buffer *)

(** C7.  When the destination does not overlap the source, the call
    returns with every sample of [src] unchanged, and none of its stores
    touches a cell of [src].  This holds for every count that passes the
    assertion. *)
Theorem mix_leaves_src_unchanged
        (fuel : nat) (n dst src : Z) (gain_l gain_r : float32) (st : state) :
  is_uint32 n -> n mod 4 = 0 ->
  src + n <= dst \/ dst + 2 * n <= src ->
  (num_blocks n <= fuel)%nat ->
  exists st' tr,
    mix_mono_to_stereo_intrinsics fuel n dst src gain_l gain_r st = Some (Returned st') /\
    st_trace st' = st_trace st ++ tr /\
    (forall i, 0 <= i < n -> st_mem st' (src + i) = st_mem st (src + i)) /\
    (forall a, In a (cells_written tr) -> ~ (src <= a < src + n)).
Proof.
  intros Hu H4 Hd Hf.
  exists (mixed n dst src gain_l gain_r st),
         (flat_map (block_events dst src) (block_starts 0 (num_blocks n))).
  split; [apply mix_returns; assumption|].
  split; [apply mixed_trace|]. split.
  - intros i Hi. apply mixed_frame; try assumption. lia.
  - intros a Ha.
    apply (blocks_written_in_range dst src n) in Ha;
      try (apply block_count; unfold is_uint32 in Hu; lia);
      try reflexivity; unfold is_uint32 in Hu; lia.
Qed.

Lemma mix_leaves_src_unchanged_witness :
  exists st' tr,
    mix_mono_to_stereo_intrinsics 2 8 100 0 f0_5 f2
                                  (state_of_list [f1; f2; f3; f4; f6; f8; f1; f2])
    = Some (Returned st') /\
    st_trace st' = st_trace (state_of_list [f1; f2; f3; f4; f6; f8; f1; f2]) ++ tr /\
    (forall i, 0 <= i < 8 ->
       st_mem st' (0 + i) = st_mem (state_of_list [f1; f2; f3; f4; f6; f8; f1; f2]) (0 + i)) /\
    (forall a, In a (cells_written tr) -> ~ (0 <= a < 0 + 8)).
Proof.
  apply (mix_leaves_src_unchanged 2 8 100 0 f0_5 f2).
  - unfold is_uint32, UINT32_MOD. lia.
  - reflexivity.
  - lia.
  - unfold num_blocks. cbn. lia.
Defined.

(** ** Termination *)

(** C8.  For every count that passes the assertion the call returns: the
    loop needs one unit of fuel per block, returns with [num_samples / 4]
    units and with more, and runs out with fewer, so that it executes
    exactly [num_samples / 4] iterations.  All it does to the outside is
    one four-lane load and two four-lane stores per iteration. *)
Theorem mix_terminates (n dst src : Z) (gain_l gain_r : float32) (st : state) :
  is_uint32 n -> n mod 4 = 0 ->
  Z.of_nat (num_blocks n) = n / 4 /\
  (forall fuel, (fuel < num_blocks n)%nat ->
     mix_mono_to_stereo_intrinsics fuel n dst src gain_l gain_r st = None) /\
  (exists st' tr,
     (forall fuel, (num_blocks n <= fuel)%nat ->
        mix_mono_to_stereo_intrinsics fuel n dst src gain_l gain_r st = Some (Returned st')) /\
     st_trace st' = st_trace st ++ tr /\
     loads tr = num_blocks n /\
     stores tr = (2 * num_blocks n)%nat /\
     length tr = (loads tr + stores tr)%nat).
Proof.
  intros Hu H4. split; [|split].
  - unfold num_blocks. apply Z2Nat.id. apply Z.div_pos; unfold is_uint32 in Hu; lia.
  - intros fuel Hf. apply mix_starved; assumption.
  - exists (mixed n dst src gain_l gain_r st),
           (flat_map (block_events dst src) (block_starts 0 (num_blocks n))).
    split; [intros fuel Hf; apply mix_returns; assumption|].
    split; [apply mixed_trace|].
    rewrite blocks_loads, blocks_stores, blocks_events_length, block_starts_length.
    split; [reflexivity|]. split; [reflexivity|]. lia.
Qed.

Lemma mix_terminates_witness :
  Z.of_nat (num_blocks 8) = 8 / 4 /\
  (forall fuel, (fuel < num_blocks 8)%nat ->
     mix_mono_to_stereo_intrinsics fuel 8 100 0 f0_5 f2 (state_of_list []) = None) /\
  (exists st' tr,
     (forall fuel, (num_blocks 8 <= fuel)%nat ->
        mix_mono_to_stereo_intrinsics fuel 8 100 0 f0_5 f2 (state_of_list [])
        = Some (Returned st')) /\
     st_trace st' = st_trace (state_of_list []) ++ tr /\
     loads tr = num_blocks 8 /\
     stores tr = (2 * num_blocks 8)%nat /\
     length tr = (loads tr + stores tr)%nat).
Proof.
  apply (mix_terminates 8 100 0 f0_5 f2).
  - unfold is_uint32, UINT32_MOD. lia.
  - reflexivity.
Defined.

(** ** Zero gain *)

(** C3.  With [gain_l = 0.0] an infinite sample does not give a zero: on
    [src = [+inf; 1.0; 1.0; 1.0]] the cell [dst[0]] is a NaN, which does
    not compare equal to [0.0]. *)
Lemma zero_gain_infinite_sample_gives_nan :
  returned_cell
    (mix_mono_to_stereo_intrinsics 1 4 100 0 F32.pzero f2
       (state_of_list [F32.pinf; f1; f1; f1]))
    (100 + 2 * 0) = Some S754_nan /\
  F32.eqb S754_nan F32.pzero = false.
Proof. split; vm_compute; reflexivity. Qed.

(** C3, amended.  For a count that is a multiple of four and at most
    [2^31] and a destination clear of the source: with [gain_l = 0.0]
    every finite sample [src[i]] leaves a zero in [dst[2*i]] ([+0.0] or
    [-0.0], equal to [0.0] under [==]), and every infinite or NaN sample
    leaves a NaN there; likewise for [gain_r = 0.0] and [dst[2*i+1]]. *)
Theorem mix_zero_gain
        (fuel : nat) (n dst src : Z) (gain_l gain_r : float32) (st : state) :
  0 <= n -> 2 * n <= UINT32_MOD -> n mod 4 = 0 ->
  src + n <= dst \/ dst + 2 * n <= src ->
  (num_blocks n <= fuel)%nat ->
  exists st',
    mix_mono_to_stereo_intrinsics fuel n dst src gain_l gain_r st = Some (Returned st') /\
    forall i, 0 <= i < n ->
      (gain_l = F32.pzero ->
         (F32.is_finite (st_mem st (src + i)) = true ->
            F32.is_zero (st_mem st' (dst + 2 * i)) = true /\
            F32.eqb (st_mem st' (dst + 2 * i)) F32.pzero = true) /\
         (F32.is_finite (st_mem st (src + i)) = false ->
            st_mem st' (dst + 2 * i) = S754_nan)) /\
      (gain_r = F32.pzero ->
         (F32.is_finite (st_mem st (src + i)) = true ->
            F32.is_zero (st_mem st' (dst + 2 * i + 1)) = true /\
            F32.eqb (st_mem st' (dst + 2 * i + 1)) F32.pzero = true) /\
         (F32.is_finite (st_mem st (src + i)) = false ->
            st_mem st' (dst + 2 * i + 1) = S754_nan)).
Proof.
  intros Hn Hw H4 Hd Hf.
  destruct (mix_elementwise fuel n dst src gain_l gain_r st Hn Hw H4 Hd Hf) as (st' & R & C).
  exists st'. split; [exact R|].
  intros i Hi. destruct (C i Hi) as [Cl Cr]. rewrite Cl, Cr.
  split; intros ->; split; intros Hx.
  - apply F32Facts.mul_pzero_finite; exact Hx.
  - apply F32Facts.mul_pzero_not_finite; exact Hx.
  - apply F32Facts.mul_pzero_finite; exact Hx.
  - apply F32Facts.mul_pzero_not_finite; exact Hx.
Qed.

Lemma mix_zero_gain_witness :
  exists st',
    mix_mono_to_stereo_intrinsics 1 4 100 0 F32.pzero f2
                                  (state_of_list [F32.pinf; f1; f1; f1])
    = Some (Returned st') /\
    F32.is_zero (st_mem st' (100 + 2 * 1)) = true /\
    F32.eqb (st_mem st' (100 + 2 * 1)) F32.pzero = true /\
    st_mem st' (100 + 2 * 0) = S754_nan.
Proof.
  destruct (mix_zero_gain 1 4 100 0 F32.pzero f2 (state_of_list [F32.pinf; f1; f1; f1]))
    as (st' & R & Z); [lia | unfold UINT32_MOD; lia | reflexivity | lia | cbn; lia |].
  exists st'. split; [exact R|].
  destruct (Z 1 ltac:(lia)) as [[Fin _] _]; [reflexivity|].
  destruct (Z 0 ltac:(lia)) as [[_ Inf] _]; [reflexivity|].
  destruct Fin as [Fz Fe]; [reflexivity|].
  split; [exact Fz|]. split; [exact Fe|]. apply Inf. reflexivity.
Defined.

(** ** Identity gain *)

(** X10.  For a count that is a multiple of four and at most [2^31], a
    destination clear of the source and samples that are single-precision
    values, gains of [1.0] copy every sample that is not a NaN into both
    channels, unchanged: zeros with their sign, subnormal and normal
    numbers, infinities.  A NaN sample gives a NaN in both channels; which
    NaN is not said (the model has one NaN, and the multiplication may
    change the payload and the signalling bit of the sample). *)
Lemma mix_identity_gain (fuel : nat) (n dst src : Z) (st : state) :
  0 <= n -> 2 * n <= UINT32_MOD -> n mod 4 = 0 ->
  src + n <= dst \/ dst + 2 * n <= src ->
  (num_blocks n <= fuel)%nat ->
  (forall i, 0 <= i < n -> F32.valid (st_mem st (src + i)) = true) ->
  exists st',
    mix_mono_to_stereo_intrinsics fuel n dst src F32.one F32.one st = Some (Returned st') /\
    forall i, 0 <= i < n ->
      (F32.is_nan (st_mem st (src + i)) = false ->
       st_mem st' (dst + 2 * i) = st_mem st (src + i) /\
       st_mem st' (dst + 2 * i + 1) = st_mem st (src + i)) /\
      (F32.is_nan (st_mem st (src + i)) = true ->
       F32.is_nan (st_mem st' (dst + 2 * i)) = true /\
       F32.is_nan (st_mem st' (dst + 2 * i + 1)) = true).
Proof.
  intros Hn Hw H4 Hd Hf Hv.
  destruct (mix_elementwise fuel n dst src F32.one F32.one st Hn Hw H4 Hd Hf) as (st' & R & C).
  exists st'. split; [exact R|].
  intros i Hi. destruct (C i Hi) as [Cl Cr]. rewrite Cl, Cr.
  split; intros Hx.
  - rewrite F32Facts.mul_one_r by (apply Hv; exact Hi). split; reflexivity.
  - destruct (st_mem st (src + i)); try discriminate. split; reflexivity.
Qed.

(** C4, at [num_samples = 2^31 + 4].  The source holds [1.0] in every
    sample and the destination, [2^32] cells further on, holds [2.0].
    With both gains [1.0] the call returns, and the cell [dst[2*i]] of the
    sample [i = 2^31] holds [2.0], its old value, not the sample [1.0]. *)
Theorem mix_identity_gain_large_count :
  exists fuel st',
    mix_mono_to_stereo_intrinsics fuel wrap_count 4294967296 0 F32.one F32.one
                                  state_ones_then_twos
    = Some (Returned st') /\
    st_mem state_ones_then_twos (0 + wrap_sample) = f1 /\
    st_mem st' (4294967296 + 2 * wrap_sample) = f2 /\
    f2 <> f1.
Proof.
  destruct wrap_count_ok as [Hu H4].
  exists (num_blocks wrap_count),
         (mixed wrap_count 4294967296 0 F32.one F32.one state_ones_then_twos).
  split; [apply mix_returns; auto|].
  split; [reflexivity|]. split; [|discriminate].
  rewrite mixed_frame; auto.
  unfold wrap_sample, UINT32_MOD. lia.
Qed.

(** ** Scale invariance *)

Lemma scale_buf_inside (k : float32) (base len : Z) (m : mem) (a : Z) :
  base <= a < base + len -> scale_buf k base len m a = F32.mul (m a) k.
Proof.
  intros H. unfold scale_buf.
  destruct (Z.leb_spec base a), (Z.ltb_spec a (base + len)); try lia. reflexivity.
Qed.

(** C5.  Two inputs on which the two sides do not agree up to rounding.
    - Overflow: with [src[0] = 2^100], [k = 2^100] and [gain_l = 0.0] the
      scaled sample is [+inf]; scaling and then mixing leaves a NaN in
      [dst[0]], mixing and then scaling leaves [0.0].
    - Underflow: with [src[0] = 3 * 2^-100], [k = 2^-50] and
      [gain_l = 2^100] the scaled sample falls in the subnormal range and
      is rounded to [2^-148]; scaling and then mixing leaves [2^-48] in
      [dst[0]], mixing and then scaling leaves [3 * 2^-50], a quarter
      less and more than a million units in the last place away. *)
Lemma scale_invariance_fails_on_overflow :
  (exists a b,
    option_map (fun m => m (100 + 2 * 0))
      (scale_then_mix 1 4 100 0 F32.pzero f2 f2p100
                      (state_of_list [f2p100; f1; f1; f1])) = Some a /\
    option_map (fun m => m (100 + 2 * 0))
      (mix_then_scale 1 4 100 0 F32.pzero f2 f2p100
                      (state_of_list [f2p100; f1; f1; f1])) = Some b /\
    a = S754_nan /\ b = F32.pzero /\ F32.nan_agree a b = false /\
    F32.close_to 3 a b = false) /\
  (exists a b,
    option_map (fun m => m (100 + 2 * 0))
      (scale_then_mix 1 4 100 0 f2p100 f2 f2m50
                      (state_of_list [f3_2m100; f1; f1; f1])) = Some a /\
    option_map (fun m => m (100 + 2 * 0))
      (mix_then_scale 1 4 100 0 f2p100 f2 f2m50
                      (state_of_list [f3_2m100; f1; f1; f1])) = Some b /\
    a = F32.of_Z_exp 1 (-48) /\ b = F32.of_Z_exp 3 (-50) /\
    F32.close_to 1000000 a b = false).
Proof.
  split.
  - exists S754_nan, F32.pzero. repeat split; vm_compute; reflexivity.
  - exists (F32.of_Z_exp 1 (-48)), (F32.of_Z_exp 3 (-50)).
    repeat split; vm_compute; reflexivity.
Qed.

(** C5, amended.  For a count that is a multiple of four and at most
    [2^31] and a destination clear of the source, for every [k] and all
    gains: scaling the source by [k] and mixing leaves
    [(src[i] * k) * gain] in each cell of the destination, mixing and
    scaling the destination by [k] leaves [(src[i] * gain) * k] there.
    The two destinations agree up to rounding, each cell within three
    units in the last place of the other, at every sample where no
    product of the sample, [k] and the gain overflows or underflows
    ([F32.scale_safe]).  They are the same bit for bit
    - for [k = 1.0], when samples and gains are single-precision values;
    - for [k = 2^j], at every sample on which scaling by [2^j] is exact
      for both gains: sample and gain are normal numbers, and the scaled
      sample and the two products stay within the normal range. *)
Theorem mix_scale_invariance
        (fuel : nat) (n dst src : Z) (gain_l gain_r k : float32) (st : state) :
  0 <= n -> 2 * n <= UINT32_MOD -> n mod 4 = 0 ->
  src + n <= dst \/ dst + 2 * n <= src ->
  (num_blocks n <= fuel)%nat ->
  exists mA mB,
    scale_then_mix fuel n dst src gain_l gain_r k st = Some mA /\
    mix_then_scale fuel n dst src gain_l gain_r k st = Some mB /\
    forall i, 0 <= i < n ->
      let x := st_mem st (src + i) in
      mA (dst + 2 * i) = F32.mul (F32.mul x k) gain_l /\
      mB (dst + 2 * i) = F32.mul (F32.mul x gain_l) k /\
      mA (dst + 2 * i + 1) = F32.mul (F32.mul x k) gain_r /\
      mB (dst + 2 * i + 1) = F32.mul (F32.mul x gain_r) k /\
      (F32.scale_safe x k gain_l = true ->
       F32.close_to 3 (mA (dst + 2 * i)) (mB (dst + 2 * i)) = true) /\
      (F32.scale_safe x k gain_r = true ->
       F32.close_to 3 (mA (dst + 2 * i + 1)) (mB (dst + 2 * i + 1)) = true) /\
      (k = F32.one ->
       F32.valid x = true -> F32.valid gain_l = true -> F32.valid gain_r = true ->
       mA (dst + 2 * i) = mB (dst + 2 * i) /\
       mA (dst + 2 * i + 1) = mB (dst + 2 * i + 1)) /\
      (forall j, k = F32.pow2 j ->
       F32.scales_exactly j x gain_l = true -> F32.scales_exactly j x gain_r = true ->
       mA (dst + 2 * i) = mB (dst + 2 * i) /\
       mA (dst + 2 * i + 1) = mB (dst + 2 * i + 1)).
Proof.
  intros Hn Hw H4 Hd Hf.
  destruct (mix_elementwise fuel n dst src gain_l gain_r
              (mk_state (scale_buf k src n (st_mem st)) (st_trace st)) Hn Hw H4 Hd Hf)
    as (stA & RA & CA).
  destruct (mix_elementwise fuel n dst src gain_l gain_r st Hn Hw H4 Hd Hf)
    as (stB & RB & CB).
  exists (st_mem stA), (scale_buf k dst (2 * n) (st_mem stB)).
  unfold scale_then_mix, mix_then_scale. rewrite RA, RB.
  split; [reflexivity|]. split; [reflexivity|].
  intros i Hi. cbv zeta.
  destruct (CA i Hi) as [Al Ar]. destruct (CB i Hi) as [Bl Br].
  cbn [st_mem] in Al, Ar.
  rewrite scale_buf_inside in Al, Ar by lia.
  rewrite !scale_buf_inside by lia.
  rewrite Al, Ar, Bl, Br.
  repeat (split; [reflexivity|]).
  split; [apply F32Facts.mul_mul_safe|].
  split; [apply F32Facts.mul_mul_safe|].
  split.
  - intros -> Vx Vl Vr.
    rewrite !F32Facts.mul_one_r; auto using F32Facts.mul_valid.
  - intros j -> Sl Sr.
    rewrite (F32Facts.mul_pow2_commutes _ _ _ Sl), (F32Facts.mul_pow2_commutes _ _ _ Sr).
    split; reflexivity.
Qed.

Lemma mix_scale_invariance_witness :
  exists mA mB,
    scale_then_mix 1 4 100 0 f1_next f0_5 f3 (state_of_list [f1; f2; f3; f4]) = Some mA /\
    mix_then_scale 1 4 100 0 f1_next f0_5 f3 (state_of_list [f1; f2; f3; f4]) = Some mB /\
    mA (100 + 2 * 2) = F32.of_Z_exp 9437185 (-20) /\
    mB (100 + 2 * 2) = F32.of_Z_exp 9437186 (-20) /\
    F32.close_to 3 (mA (100 + 2 * 2)) (mB (100 + 2 * 2)) = true /\
    F32.close_to 3 (mA (100 + 2 * 2 + 1)) (mB (100 + 2 * 2 + 1)) = true.
Proof.
  destruct (mix_scale_invariance 1 4 100 0 f1_next f0_5 f3
              (state_of_list [f1; f2; f3; f4]))
    as (mA & mB & RA & RB & C); [lia | unfold UINT32_MOD; lia | reflexivity | lia | cbn; lia |].
  exists mA, mB. split; [exact RA|]. split; [exact RB|].
  destruct (C 2 ltac:(lia)) as (Al & Bl & _ & _ & Cl & Cr & _).
  split; [rewrite Al; vm_compute; reflexivity|].
  split; [rewrite Bl; vm_compute; reflexivity|].
  split; [apply Cl; reflexivity | apply Cr; reflexivity].
Defined.

(** ** The cells the call touches *)

(** X11.  For a count that is a multiple of four and at most [2^31]: what
    the call reads lies in [src[0 .. n-1]], what it writes lies in
    [dst[0 .. 2*n-1]], each of those cells is written once, and every
    other cell keeps its value. *)
Lemma mix_accesses (fuel : nat) (n dst src : Z) (gain_l gain_r : float32) (st : state) :
  0 <= n -> 2 * n <= UINT32_MOD -> n mod 4 = 0 ->
  (num_blocks n <= fuel)%nat ->
  exists st' tr,
    mix_mono_to_stereo_intrinsics fuel n dst src gain_l gain_r st = Some (Returned st') /\
    st_trace st' = st_trace st ++ tr /\
    (forall a, In a (cells_read tr) -> src <= a < src + n) /\
    (forall a, In a (cells_written tr) -> dst <= a < dst + 2 * n) /\
    (forall a, dst <= a < dst + 2 * n -> times_written tr a = 1%nat) /\
    (forall a, a < dst \/ dst + 2 * n <= a ->
       times_written tr a = 0%nat /\ st_mem st' a = st_mem st a).
Proof.
  intros Hn Hw H4 Hf.
  assert (Hu : is_uint32 n) by (unfold is_uint32, UINT32_MOD in *; lia).
  pose proof (block_count n Hn H4) as Hk.
  exists (mixed n dst src gain_l gain_r st),
         (flat_map (block_events dst src) (block_starts 0 (num_blocks n))).
  split; [apply mix_returns; assumption|].
  split; [apply mixed_trace|].
  split; [|split; [|split]].
  - intros a Ha. apply (blocks_read_in_range dst src n) in Ha; lia.
  - intros a Ha. apply (blocks_written_in_range dst src n) in Ha;
      try reflexivity; unfold is_uint32 in Hu; lia.
  - intros a Ha. rewrite (blocks_written_once dst src n) by lia.
    destruct (Z.leb_spec (dst + 2 * 0) a), (Z.ltb_spec a (dst + 2 * n));
      try lia; reflexivity.
  - intros a Ha. split.
    + rewrite (blocks_written_once dst src n) by lia.
      destruct (Z.leb_spec (dst + 2 * 0) a), (Z.ltb_spec a (dst + 2 * n));
        try lia; reflexivity.
    + apply mixed_frame; try assumption. lia.
Qed.

Lemma block_starts_snoc (k : nat) :
  forall i, block_starts i (S k) = block_starts i k ++ [i + 4 * Z.of_nat k].
Proof.
  induction k as [|k IH]; intros i.
  - cbn [block_starts app]. f_equal. lia.
  - change (block_starts i (S (S k))) with (i :: block_starts (i + 4) (S k)).
    rewrite IH. cbn [block_starts app]. do 3 f_equal. lia.
Qed.

Lemma num_blocks_wrap_count : num_blocks wrap_count = S (num_blocks wrap_sample).
Proof.
  unfold num_blocks, wrap_count, wrap_sample.
  change (2147483652 / 4) with (Z.succ 536870912).
  change (2147483648 / 4) with 536870912.
  apply Z2Nat.inj_succ. lia.
Qed.

(** C10, at [num_samples = 2^31 + 4].  The call returns; the destination
    index [2^32], which is below [2 * num_samples], is never written, and
    the destination index [0] is written twice: the last block, at
    [i = 2^31], stores at the offset [2*i] modulo [2^32], on top of the
    first. *)
Theorem mix_large_count_writes_twice
        (dst src : Z) (gain_l gain_r : float32) (m : mem) :
  exists fuel st',
    mix_mono_to_stereo_intrinsics fuel wrap_count dst src gain_l gain_r (mk_state m [])
    = Some (Returned st') /\
    4294967296 < 2 * wrap_count /\
    times_written (st_trace st') (dst + 4294967296) = 0%nat /\
    times_written (st_trace st') (dst + 0) = 2%nat.
Proof.
  destruct wrap_count_ok as [Hu H4].
  exists (num_blocks wrap_count), (mixed wrap_count dst src gain_l gain_r (mk_state m [])).
  split; [apply mix_returns; auto|].
  split; [unfold wrap_count; lia|].
  rewrite mixed_trace. cbn [st_trace app]. split.
  - unfold times_written. apply count_occ_not_In. intros Ha.
    assert (Hk : 0 + 4 * Z.of_nat (num_blocks wrap_count) = wrap_count)
      by (apply block_count; [unfold wrap_count; lia | exact H4]).
    generalize dependent (num_blocks wrap_count). intros K Ha Hk.
    apply (blocks_written_in_range dst src wrap_count _ 0 _ (Z.le_refl 0) eq_refl Hk) in Ha;
      [unfold UINT32_MOD in Ha; lia | unfold UINT32_MOD, wrap_count; lia].
  - rewrite num_blocks_wrap_count.
    assert (Hk : 0 + 4 * Z.of_nat (num_blocks wrap_sample) = wrap_sample)
      by (apply block_count; [unfold wrap_sample; lia | reflexivity]).
    generalize dependent (num_blocks wrap_sample). intros K Hk.
    rewrite block_starts_snoc, flat_map_app, times_written_app.
    rewrite (blocks_written_once dst src wrap_sample)
      by (try exact Hk; unfold wrap_sample, UINT32_MOD; lia).
    rewrite Hk.
    replace ((dst + 2 * 0 <=? dst + 0) && (dst + 0 <? dst + 2 * wrap_sample)) with true
      by (symmetry; apply andb_true_iff; split;
          [apply Z.leb_le | apply Z.ltb_lt]; unfold wrap_sample; lia).
    unfold times_written.
    cbn [flat_map block_events app cells_written].
    change (u32 (u32 (2 * wrap_sample) + 0)) with 0.
    change (u32 (u32 (2 * wrap_sample) + 4)) with 4.
    rewrite app_nil_r, count_occ_app, !count_occ_cells4.
    destruct (Z.leb_spec (dst + 0) (dst + 0)), (Z.ltb_spec (dst + 0) (dst + 0 + 4)),
             (Z.leb_spec (dst + 4) (dst + 0)); try lia.
    reflexivity.
Qed.

(** * Beyond the contract *)

(** ** More on single-precision multiplication *)

Module F32More.

Import F32 F32Facts.

(** Rounding treats the sign as a label. *)
Lemma binary_round_aux_opp (s : bool) (M E : Z) (l : location) :
  binary_round_aux prec emax (negb s) M E l = SFopp (binary_round_aux prec emax s M E l).
Proof.
  unfold binary_round_aux.
  destruct (shr_fexp prec emax M E l) as [mrs' e'].
  destruct (shr_fexp prec emax _ e' loc_Exact) as [mrs'' e''].
  destruct (shr_m mrs'') as [|p|p]; try reflexivity.
  destruct (e'' <=? emax - prec); reflexivity.
Qed.

Lemma mul_opp_r (x g : float32) : mul x (opp g) = opp (mul x g).
Proof.
  unfold mul, opp.
  destruct x as [sx|sx| |sx mx ex], g as [sg|sg| |sg mg eg];
    cbn [SFmul SFopp]; try reflexivity;
    try (rewrite <- negb_xorb_r; reflexivity).
  rewrite <- negb_xorb_r. apply binary_round_aux_opp.
Qed.

Lemma mul_opp_l (x g : float32) : mul (opp x) g = opp (mul x g).
Proof.
  unfold mul, opp.
  destruct x as [sx|sx| |sx mx ex], g as [sg|sg| |sg mg eg];
    cbn [SFmul SFopp]; try reflexivity;
    try (rewrite <- negb_xorb_l; reflexivity).
  rewrite <- negb_xorb_l. apply binary_round_aux_opp.
Qed.

Lemma shr_m_nonneg (r : shr_record) (e n : Z) :
  0 <= shr_m r -> 0 <= shr_m (fst (shr r e n)).
Proof.
  intros Hr. destruct n as [|p|p]; cbn [shr fst]; try assumption.
  rewrite iter_shr_1_m by assumption. apply Z.shiftr_nonneg. assumption.
Qed.

(** Rounding a non-negative mantissa gives a zero, a finite number or an
    infinity, never a NaN. *)
Lemma binary_round_aux_not_nan (s : bool) (M E : Z) (l : location) :
  0 <= M -> is_nan (binary_round_aux prec emax s M E l) = false.
Proof.
  intros HM. unfold binary_round_aux, shr_fexp.
  pose proof (shr_m_nonneg (shr_record_of_loc M l) E
                (fexp prec emax (Zdigits2 M + E) - E)) as P1.
  rewrite shr_record_of_loc_m in P1. specialize (P1 HM).
  destruct (shr (shr_record_of_loc M l) E _) as [mrs' e']. cbn [fst] in P1.
  pose proof (round_nearest_even_bounds (shr_m mrs') (loc_of_shr_record mrs')) as B.
  set (M2 := round_nearest_even (shr_m mrs') (loc_of_shr_record mrs')) in *.
  pose proof (shr_m_nonneg (shr_record_of_loc M2 loc_Exact) e'
                (fexp prec emax (Zdigits2 M2 + e') - e')) as P2.
  rewrite shr_record_of_loc_m in P2. specialize (P2 ltac:(lia)).
  destruct (shr (shr_record_of_loc M2 loc_Exact) e' _) as [mrs'' e'']. cbn [fst] in P2.
  destruct (shr_m mrs'') as [|p|p]; try reflexivity; [|lia].
  destruct (e'' <=? emax - prec); reflexivity.
Qed.

(** A product is a NaN when a factor is one, and when a zero meets an
    infinity; in no other case. *)
Lemma mul_is_nan (x g : float32) :
  is_nan (mul x g)
  = is_nan x || is_nan g || (is_inf x && is_zero g) || (is_zero x && is_inf g).
Proof.
  unfold mul.
  destruct x as [sx|sx| |sx mx ex], g as [sg|sg| |sg mg eg];
    cbn [SFmul is_nan is_inf is_zero orb andb]; try reflexivity.
  apply binary_round_aux_not_nan. lia.
Qed.

End F32More.

(** ** Overlapping buffers *)

Lemma run_blocks_cells_overlap (dst src : Z) (gain_l gain_r : float32) (n : Z) (k : nat) :
  forall (i : Z) (st : state) (j : Z),
    0 <= i -> i + 4 * Z.of_nat k = n -> 2 * n <= UINT32_MOD ->
    src + n <= dst + 2 * i \/ dst + n - 4 <= src ->
    i <= j < n ->
    let st' := run_blocks dst src (_mm_set1_ps gain_l) (_mm_set1_ps gain_r)
                          (block_starts i k) st in
    st_mem st' (dst + 2 * j) = F32.mul (st_mem st (src + j)) gain_l /\
    st_mem st' (dst + 2 * j + 1) = F32.mul (st_mem st (src + j)) gain_r.
Proof.
  induction k as [|k IH]; intros i st j Hi Hn Hw Hd Hj st'; [lia|].
  subst st'. cbn [block_starts]. rewrite run_blocks_cons.
  set (st1 := mix_block dst src _ _ i st).
  destruct (Z_lt_le_dec j (i + 4)) as [Hlo | Hhi].
  - rewrite !(run_blocks_frame_nowrap dst src _ _ n k (i + 4) st1) by lia.
    apply mix_block_cells; lia.
  - destruct (IH (i + 4) st1 j) as (Il & Ir); try lia.
    rewrite Il, Ir. unfold st1.
    rewrite mix_block_frame_nowrap by lia. split; reflexivity.
Qed.

(** X1.  The elementwise result needs less than disjoint buffers.  For a
    count that is a multiple of four and at most [2^31], the call leaves
    [src[i] * gain_l] in [dst[2*i]] and [src[i] * gain_r] in [dst[2*i+1]],
    [src[i]] being the sample before the call, whenever the source ends
    before the destination starts or starts at [dst + num_samples - 4] or
    later: every block loads its four samples before it stores, and the
    stores of a block stay behind the samples of the blocks to come.  In
    particular the kernel expands in place a source that lies in the upper
    half of the destination ([src = dst + num_samples]). *)
Theorem mix_elementwise_overlap
        (fuel : nat) (n dst src : Z) (gain_l gain_r : float32) (st : state) :
  0 <= n -> 2 * n <= UINT32_MOD -> n mod 4 = 0 ->
  src + n <= dst \/ dst + n - 4 <= src ->
  (num_blocks n <= fuel)%nat ->
  exists st',
    mix_mono_to_stereo_intrinsics fuel n dst src gain_l gain_r st = Some (Returned st') /\
    forall i, 0 <= i < n ->
      st_mem st' (dst + 2 * i) = F32.mul (st_mem st (src + i)) gain_l /\
      st_mem st' (dst + 2 * i + 1) = F32.mul (st_mem st (src + i)) gain_r.
Proof.
  intros Hn Hw H4 Hd Hf.
  exists (mixed n dst src gain_l gain_r st). split.
  - apply mix_returns; [unfold is_uint32, UINT32_MOD in *; lia | assumption | assumption].
  - intros i Hi. unfold mixed.
    apply (run_blocks_cells_overlap dst src gain_l gain_r n);
      auto using block_count; lia.
Qed.

Lemma mix_elementwise_overlap_witness :
  exists st',
    mix_mono_to_stereo_intrinsics 2 8 0 8 f0_5 f2
      (state_of_list [f1; f1; f1; f1; f1; f1; f1; f1; f1; f2; f3; f4; f6; f8; f1; f2])
    = Some (Returned st') /\
    st_mem st' (0 + 2 * 5) = F32.mul f8 f0_5 /\
    st_mem st' (0 + 2 * 5 + 1) = F32.mul f8 f2.
Proof.
  destruct (mix_elementwise_overlap 2 8 0 8 f0_5 f2
    (state_of_list [f1; f1; f1; f1; f1; f1; f1; f1; f1; f2; f3; f4; f6; f8; f1; f2]))
    as (st' & R & C); [lia | unfold UINT32_MOD; lia | reflexivity | lia | cbn; lia |].
  exists st'. split; [exact R|]. apply (C 5). lia.
Defined.

(** X2.  With [dst = src] and two blocks or more the second block reads
    what the first has written: after the call [dst[8]], the left cell of
    sample 4, holds [(src[2] * gain_l) * gain_l], the sample 2 with the
    gain applied twice, whatever sample 4 was. *)
Theorem mix_in_place_same_pointer
        (fuel : nat) (n buf : Z) (gain_l gain_r : float32) (st : state) :
  8 <= n -> 2 * n <= UINT32_MOD -> n mod 4 = 0 ->
  (num_blocks n <= fuel)%nat ->
  exists st',
    mix_mono_to_stereo_intrinsics fuel n buf buf gain_l gain_r st = Some (Returned st') /\
    st_mem st' (buf + 2 * 4) = F32.mul (F32.mul (st_mem st (buf + 2)) gain_l) gain_l.
Proof.
  intros Hn Hw H4 Hf.
  exists (mixed n buf buf gain_l gain_r st). split.
  - apply mix_returns; [unfold is_uint32, UINT32_MOD in *; lia | assumption | assumption].
  - unfold mixed.
    pose proof (block_count n ltac:(lia) H4) as Hk.
    destruct (num_blocks n) as [|[|k]]; try lia.
    cbn [block_starts]. rewrite !run_blocks_cons.
    rewrite (run_blocks_frame_nowrap buf buf _ _ n k (0 + 4 + 4)) by lia.
    destruct (mix_block_cells buf buf gain_l gain_r (0 + 4)
                (mix_block buf buf (_mm_set1_ps gain_l) (_mm_set1_ps gain_r) 0 st) 4)
      as [B4 _]; try (unfold UINT32_MOD; lia).
    rewrite B4.
    destruct (mix_block_cells buf buf gain_l gain_r 0 st 2) as [B0 _];
      try (unfold UINT32_MOD; lia).
    replace (buf + 4) with (buf + 2 * 2) by lia. rewrite B0. reflexivity.
Qed.

(** ** Splitting a call *)

Lemma block_starts_app (k1 k2 : nat) :
  forall i, block_starts i (k1 + k2)
            = block_starts i k1 ++ block_starts (i + 4 * Z.of_nat k1) k2.
Proof.
  induction k1 as [|k1 IH]; intros i.
  - cbn [Nat.add block_starts app]. f_equal. lia.
  - cbn [Nat.add block_starts app]. rewrite IH. do 3 f_equal. lia.
Qed.

Lemma run_blocks_app (dst src : Z) (mul_l mul_r : __m128) (l1 l2 : list Z) (st : state) :
  run_blocks dst src mul_l mul_r (l1 ++ l2) st
  = run_blocks dst src mul_l mul_r l2 (run_blocks dst src mul_l mul_r l1 st).
Proof. apply fold_left_app. Qed.

(** The block at [d + i] for the pointers [dst], [src] is the block at [i]
    for the pointers advanced by [d] samples, as long as [2 * (d + i)]
    does not wrap. *)
Lemma mix_block_shift (dst src : Z) (mul_l mul_r : __m128) (d i : Z) (st : state) :
  0 <= d -> 0 <= i -> 2 * (d + i) + 8 <= UINT32_MOD ->
  mix_block dst src mul_l mul_r (d + i) st
  = mix_block (dst + 2 * d) (src + d) mul_l mul_r i st.
Proof.
  intros Hd Hi Hw.
  destruct (store_offsets_nowrap (d + i) ltac:(lia) Hw) as (E0 & E4).
  destruct (store_offsets_nowrap i Hi ltac:(lia)) as (F0 & F4).
  unfold mix_block, _mm_loadu_ps, _mm_storeu_ps. cbn [st_mem st_trace].
  rewrite E0, E4, F0, F4.
  replace (src + d + i) with (src + (d + i)) by lia.
  replace (dst + 2 * d + 2 * i) with (dst + 2 * (d + i)) by lia.
  replace (dst + 2 * d + (2 * i + 4)) with (dst + (2 * (d + i) + 4)) by lia.
  reflexivity.
Qed.

Lemma run_blocks_shift (dst src : Z) (mul_l mul_r : __m128) (d n : Z) (k : nat) :
  forall (i : Z) (st : state),
    0 <= d -> 0 <= i -> d + i + 4 * Z.of_nat k = n -> 2 * n <= UINT32_MOD ->
    run_blocks dst src mul_l mul_r (block_starts (d + i) k) st
    = run_blocks (dst + 2 * d) (src + d) mul_l mul_r (block_starts i k) st.
Proof.
  induction k as [|k IH]; intros i st Hd Hi Hn Hw; [reflexivity|].
  cbn [block_starts]. rewrite !run_blocks_cons.
  rewrite mix_block_shift by lia.
  replace (d + i + 4) with (d + (i + 4)) by lia.
  apply IH; lia.
Qed.

(** The block at [2^31 + i]: the source has advanced, the store offset
    [2 * (2^31 + i)] has wrapped to [2 * i]. *)
Lemma mix_block_wrapped (dst src : Z) (mul_l mul_r : __m128) (i : Z) (st : state) :
  0 <= i -> 2 * i + 8 <= UINT32_MOD ->
  mix_block dst src mul_l mul_r (wrap_sample + i) st
  = mix_block dst (src + wrap_sample) mul_l mul_r i st.
Proof.
  intros Hi Hw.
  assert (E0 : u32 (u32 (2 * (wrap_sample + i)) + 0) = 2 * i)
    by (unfold wrap_sample; u32_arith).
  assert (E4 : u32 (u32 (2 * (wrap_sample + i)) + 4) = 2 * i + 4)
    by (unfold wrap_sample; u32_arith).
  destruct (store_offsets_nowrap i Hi Hw) as (F0 & F4).
  unfold mix_block, _mm_loadu_ps, _mm_storeu_ps. cbn [st_mem st_trace].
  rewrite E0, E4, F0, F4.
  replace (src + wrap_sample + i) with (src + (wrap_sample + i)) by lia.
  reflexivity.
Qed.

Lemma run_blocks_wrapped (dst src : Z) (mul_l mul_r : __m128) (n : Z) (k : nat) :
  forall (i : Z) (st : state),
    0 <= i -> wrap_sample + i + 4 * Z.of_nat k = n -> n < UINT32_MOD ->
    run_blocks dst src mul_l mul_r (block_starts (wrap_sample + i) k) st
    = run_blocks dst (src + wrap_sample) mul_l mul_r (block_starts i k) st.
Proof.
  induction k as [|k IH]; intros i st Hi Hn Hw; [reflexivity|].
  cbn [block_starts]. rewrite !run_blocks_cons.
  rewrite mix_block_wrapped by (unfold wrap_sample, UINT32_MOD in *; lia).
  replace (wrap_sample + i + 4) with (wrap_sample + (i + 4)) by lia.
  apply IH; lia.
Qed.

Lemma num_blocks_add (n1 n2 : Z) :
  0 <= n1 -> 0 <= n2 -> n1 mod 4 = 0 ->
  num_blocks (n1 + n2) = (num_blocks n1 + num_blocks n2)%nat.
Proof.
  intros H1 H2 M1. unfold num_blocks.
  rewrite <- Z2Nat.inj_add by (apply Z.div_pos; lia).
  f_equal. Z.div_mod_to_equations. lia.
Qed.

(** The state a call on [n1 + n2] samples returns in, split at [n1]. *)
Lemma mixed_split (n1 n2 dst src : Z) (gain_l gain_r : float32) (st : state) :
  0 <= n1 -> 0 <= n2 -> n1 mod 4 = 0 -> n2 mod 4 = 0 ->
  mixed (n1 + n2) dst src gain_l gain_r st
  = run_blocks dst src (_mm_set1_ps gain_l) (_mm_set1_ps gain_r)
               (block_starts n1 (num_blocks n2)) (mixed n1 dst src gain_l gain_r st).
Proof.
  intros H1 H2 M1 M2. unfold mixed.
  rewrite num_blocks_add, block_starts_app, run_blocks_app by assumption.
  rewrite (block_count n1 H1 M1). reflexivity.
Qed.

(** X3.  A call can be split into two.  For counts [n1] and [n2] that are
    multiples of four with [n1 + n2 <= 2^31], one call on [n1 + n2]
    samples returns in the same state (memory and trace) as a call on the
    first [n1] samples followed by a call on the remaining [n2] samples
    with the pointers advanced to [dst + 2*n1] and [src + n1]; no
    assumption on how the buffers overlap. *)
Theorem mix_split_call
        (fuel : nat) (n1 n2 dst src : Z) (gain_l gain_r : float32) (st : state) :
  0 <= n1 -> 0 <= n2 -> n1 mod 4 = 0 -> n2 mod 4 = 0 ->
  2 * (n1 + n2) <= UINT32_MOD ->
  (num_blocks (n1 + n2) <= fuel)%nat ->
  exists st',
    mix_mono_to_stereo_intrinsics fuel (n1 + n2) dst src gain_l gain_r st
    = Some (Returned st') /\
    mix_twice fuel n1 dst src n2 (dst + 2 * n1) (src + n1) gain_l gain_r st
    = Some (Returned st').
Proof.
  intros H1 H2 M1 M2 Hw Hf.
  rewrite num_blocks_add in Hf by assumption.
  exists (mixed (n1 + n2) dst src gain_l gain_r st). split.
  - apply mix_returns; [unfold is_uint32, UINT32_MOD in *; lia | | ].
    + rewrite Z.add_mod, M1, M2 by lia. reflexivity.
    + rewrite num_blocks_add by assumption. exact Hf.
  - unfold mix_twice.
    rewrite (mix_returns fuel n1) by (unfold is_uint32, UINT32_MOD in *; lia).
    rewrite (mix_returns fuel n2) by (unfold is_uint32, UINT32_MOD in *; lia).
    do 2 f_equal. rewrite mixed_split by assumption.
    pose proof (block_count n2 H2 M2) as Hk.
    pose proof (run_blocks_shift dst src (_mm_set1_ps gain_l) (_mm_set1_ps gain_r)
                  n1 (n1 + n2) (num_blocks n2) 0 (mixed n1 dst src gain_l gain_r st)
                  H1 (Z.le_refl 0) ltac:(lia) Hw) as S.
    rewrite Z.add_0_r in S. rewrite S. reflexivity.
Qed.

(** X4.  What a count of [2^31] or more does.  For a count [n] that is a
    multiple of four with [2^31 <= n < 2^32], one call returns in the same
    state as a call on the first [2^31] samples followed by a call on the
    remaining [n - 2^31] samples that reads from [src + 2^31] and writes
    from [dst] on again: the destination pointer has not advanced, because
    the store offset [2 * i] is reduced modulo [2^32]. *)
Theorem mix_wrapped_call
        (fuel : nat) (n dst src : Z) (gain_l gain_r : float32) (st : state) :
  wrap_sample <= n < UINT32_MOD -> n mod 4 = 0 ->
  (num_blocks n <= fuel)%nat ->
  exists st',
    mix_mono_to_stereo_intrinsics fuel n dst src gain_l gain_r st = Some (Returned st') /\
    mix_twice fuel wrap_sample dst src (n - wrap_sample) dst (src + wrap_sample)
              gain_l gain_r st
    = Some (Returned st').
Proof.
  intros Hn M Hf.
  assert (Mw : wrap_sample mod 4 = 0) by reflexivity.
  assert (M2 : (n - wrap_sample) mod 4 = 0).
  { unfold wrap_sample in *. Z.div_mod_to_equations. lia. }
  assert (Hw : 0 <= wrap_sample) by (unfold wrap_sample; lia).
  assert (E : n = wrap_sample + (n - wrap_sample)) by lia.
  assert (Hf' : (num_blocks wrap_sample + num_blocks (n - wrap_sample) <= fuel)%nat).
  { rewrite <- num_blocks_add by (assumption || lia). rewrite <- E. exact Hf. }
  assert (U1 : is_uint32 wrap_sample) by (unfold is_uint32, UINT32_MOD, wrap_sample; lia).
  assert (U2 : is_uint32 (n - wrap_sample)) by (unfold is_uint32, wrap_sample in *; lia).
  pose proof (block_count (n - wrap_sample) ltac:(lia) M2) as Hk.
  assert (St : mixed n dst src gain_l gain_r st
               = mixed (n - wrap_sample) dst (src + wrap_sample) gain_l gain_r
                       (mixed wrap_sample dst src gain_l gain_r st)).
  { rewrite E at 1. rewrite mixed_split by (assumption || lia).
    pose proof (run_blocks_wrapped dst src (_mm_set1_ps gain_l) (_mm_set1_ps gain_r)
                  n (num_blocks (n - wrap_sample)) 0
                  (mixed wrap_sample dst src gain_l gain_r st)
                  (Z.le_refl 0) ltac:(lia) ltac:(lia)) as S.
    rewrite Z.add_0_r in S. exact S. }
  exists (mixed n dst src gain_l gain_r st). split.
  - apply mix_returns; [unfold is_uint32, wrap_sample in *; lia | assumption | assumption].
  - unfold mix_twice.
    rewrite (mix_returns fuel wrap_sample _ _ _ _ _ U1 Mw)
      by (eapply Nat.le_trans; [apply Nat.le_add_r | exact Hf']).
    rewrite (mix_returns fuel (n - wrap_sample) _ _ _ _ _ U2 M2)
      by (eapply Nat.le_trans; [apply Nat.le_add_l | exact Hf']).
    rewrite St. reflexivity.
Qed.

(** X5.  Two calls on chunks of at most [2^31] samples each, the second
    with the pointers advanced past the first chunk, give the elementwise
    result for all [n1 + n2] samples when the destination does not overlap
    the source, also when [n1 + n2] exceeds [2^31], where one call does
    not. *)
Theorem mix_in_chunks
        (fuel : nat) (n1 n2 dst src : Z) (gain_l gain_r : float32) (st : state) :
  0 <= n1 -> 0 <= n2 -> n1 mod 4 = 0 -> n2 mod 4 = 0 ->
  2 * n1 <= UINT32_MOD -> 2 * n2 <= UINT32_MOD ->
  src + (n1 + n2) <= dst \/ dst + 2 * (n1 + n2) <= src ->
  (num_blocks n1 <= fuel)%nat -> (num_blocks n2 <= fuel)%nat ->
  exists st',
    mix_twice fuel n1 dst src n2 (dst + 2 * n1) (src + n1) gain_l gain_r st
    = Some (Returned st') /\
    forall i, 0 <= i < n1 + n2 ->
      st_mem st' (dst + 2 * i) = F32.mul (st_mem st (src + i)) gain_l /\
      st_mem st' (dst + 2 * i + 1) = F32.mul (st_mem st (src + i)) gain_r.
Proof.
  intros H1 H2 M1 M2 W1 W2 Hd F1 F2.
  assert (U1 : is_uint32 n1) by (unfold is_uint32, UINT32_MOD in *; lia).
  assert (U2 : is_uint32 n2) by (unfold is_uint32, UINT32_MOD in *; lia).
  set (st1 := mixed n1 dst src gain_l gain_r st).
  exists (mixed n2 (dst + 2 * n1) (src + n1) gain_l gain_r st1). split.
  - unfold mix_twice. rewrite (mix_returns fuel n1) by assumption.
    apply mix_returns; assumption.
  - intros i Hi. destruct (Z_lt_le_dec i n1) as [Lo | Hi'].
    + (* written by the first call, left alone by the second *)
      rewrite !(mixed_frame n2 (dst + 2 * n1)) by (try assumption; lia).
      apply mixed_cells; try assumption; lia.
    + (* written by the second call, from a sample the first left alone *)
      destruct (mixed_cells n2 (dst + 2 * n1) (src + n1) gain_l gain_r st1 (i - n1))
        as [Cl Cr]; try assumption; try lia.
      replace (dst + 2 * n1 + 2 * (i - n1)) with (dst + 2 * i) in Cl, Cr by lia.
      replace (src + n1 + (i - n1)) with (src + i) in Cl, Cr by lia.
      rewrite Cl, Cr. unfold st1.
      rewrite (mixed_frame n1 dst src) by (try assumption; lia).
      split; reflexivity.
Qed.

(** X6.  Calling the kernel a second time with the same arguments changes
    no cell of the memory: for a count that is a multiple of four and at
    most [2^31] and a destination that does not overlap the source, the
    memory after two calls is the memory after one. *)
Theorem mix_again_changes_nothing
        (fuel : nat) (n dst src : Z) (gain_l gain_r : float32) (st : state) :
  0 <= n -> 2 * n <= UINT32_MOD -> n mod 4 = 0 ->
  src + n <= dst \/ dst + 2 * n <= src ->
  (num_blocks n <= fuel)%nat ->
  exists st1 st2,
    mix_mono_to_stereo_intrinsics fuel n dst src gain_l gain_r st = Some (Returned st1) /\
    mix_twice fuel n dst src n dst src gain_l gain_r st = Some (Returned st2) /\
    forall a, st_mem st2 a = st_mem st1 a.
Proof.
  intros Hn Hw H4 Hd Hf.
  assert (Hu : is_uint32 n) by (unfold is_uint32, UINT32_MOD in *; lia).
  set (st1 := mixed n dst src gain_l gain_r st).
  exists st1, (mixed n dst src gain_l gain_r st1).
  split; [apply mix_returns; assumption|]. split.
  - unfold mix_twice. rewrite (mix_returns fuel n) by assumption.
    apply mix_returns; assumption.
  - intros a.
    destruct (Z_lt_le_dec a dst) as [Below | NotBelow];
      [apply mixed_frame; try assumption; lia|].
    destruct (Z_lt_le_dec a (dst + 2 * n)) as [Inside | Above];
      [|apply mixed_frame; try assumption; lia].
    assert (Hi : exists i, 0 <= i < n /\ (a = dst + 2 * i \/ a = dst + 2 * i + 1)).
    { exists ((a - dst) / 2). Z.div_mod_to_equations. lia. }
    destruct Hi as (i & Hi & Ha).
    destruct (mixed_cells n dst src gain_l gain_r st1 i) as [Cl Cr]; try assumption.
    destruct (mixed_cells n dst src gain_l gain_r st i) as [Dl Dr]; try assumption.
    fold st1 in Dl, Dr.
    assert (Hs : st_mem st1 (src + i) = st_mem st (src + i))
      by (apply mixed_frame; try assumption; lia).
    destruct Ha as [-> | ->].
    + rewrite Cl, Dl, Hs. reflexivity.
    + rewrite Cr, Dr, Hs. reflexivity.
Qed.


Lemma mix_in_place_same_pointer_witness :
  exists st',
    mix_mono_to_stereo_intrinsics 2 8 0 0 f0_5 f2 (state_of_list ramp8) = Some (Returned st') /\
    st_mem st' (0 + 2 * 4)
    = F32.mul (F32.mul (st_mem (state_of_list ramp8) (0 + 2)) f0_5) f0_5.
Proof.
  apply (mix_in_place_same_pointer 2 8 0 f0_5 f2 (state_of_list ramp8)).
  - lia.
  - unfold UINT32_MOD. lia.
  - reflexivity.
  - cbn. lia.
Defined.

Lemma mix_split_call_witness :
  exists st',
    mix_mono_to_stereo_intrinsics 2 (4 + 4) 100 0 f0_5 f2 (state_of_list ramp8)
    = Some (Returned st') /\
    mix_twice 2 4 100 0 4 (100 + 2 * 4) (0 + 4) f0_5 f2 (state_of_list ramp8)
    = Some (Returned st').
Proof.
  apply (mix_split_call 2 4 4 100 0 f0_5 f2 (state_of_list ramp8)).
  - lia.
  - lia.
  - reflexivity.
  - reflexivity.
  - unfold UINT32_MOD. lia.
  - cbn. lia.
Defined.

Lemma mix_wrapped_call_witness :
  exists st',
    mix_mono_to_stereo_intrinsics (num_blocks wrap_count) wrap_count 4294967296 0 f0_5 f2
                                  state_ones_then_twos
    = Some (Returned st') /\
    mix_twice (num_blocks wrap_count) wrap_sample 4294967296 0
              (wrap_count - wrap_sample) 4294967296 (0 + wrap_sample)
              f0_5 f2 state_ones_then_twos
    = Some (Returned st').
Proof.
  apply (mix_wrapped_call (num_blocks wrap_count) wrap_count 4294967296 0 f0_5 f2).
  - unfold wrap_sample, wrap_count, UINT32_MOD. lia.
  - reflexivity.
  - apply Nat.le_refl.
Defined.

Lemma mix_in_chunks_witness :
  exists st',
    mix_twice 1 4 100 0 4 (100 + 2 * 4) (0 + 4) f0_5 f2 (state_of_list ramp8)
    = Some (Returned st') /\
    st_mem st' (100 + 2 * 6) = F32.mul (st_mem (state_of_list ramp8) (0 + 6)) f0_5 /\
    st_mem st' (100 + 2 * 6 + 1) = F32.mul (st_mem (state_of_list ramp8) (0 + 6)) f2.
Proof.
  destruct (mix_in_chunks 1 4 4 100 0 f0_5 f2 (state_of_list ramp8)) as (st' & R & C);
    [lia | lia | reflexivity | reflexivity | unfold UINT32_MOD; lia
     | unfold UINT32_MOD; lia | lia | cbn; lia | cbn; lia |].
  exists st'. split; [exact R|]. apply (C 6). lia.
Defined.

Lemma mix_again_changes_nothing_witness :
  exists st1 st2,
    mix_mono_to_stereo_intrinsics 2 8 100 0 f0_5 f2 (state_of_list ramp8)
    = Some (Returned st1) /\
    mix_twice 2 8 100 0 8 100 0 f0_5 f2 (state_of_list ramp8) = Some (Returned st2) /\
    forall a, st_mem st2 a = st_mem st1 a.
Proof.
  apply (mix_again_changes_nothing 2 8 100 0 f0_5 f2 (state_of_list ramp8)).
  - lia.
  - unfold UINT32_MOD. lia.
  - reflexivity.
  - lia.
  - cbn. lia.
Defined.

(** ** Signs, NaNs and exact gains *)

(** X7.  Negating both gains negates the output, exactly: for a count
    that is a multiple of four and at most [2^31] and a destination that
    does not overlap the source, every destination cell after a call with
    the gains [-gain_l] and [-gain_r] is the negation of the cell after a
    call with [gain_l] and [gain_r] (a NaN stays a NaN). *)
Theorem mix_negated_gains
        (fuel : nat) (n dst src : Z) (gain_l gain_r : float32) (st : state) :
  0 <= n -> 2 * n <= UINT32_MOD -> n mod 4 = 0 ->
  src + n <= dst \/ dst + 2 * n <= src ->
  (num_blocks n <= fuel)%nat ->
  exists st_pos st_neg,
    mix_mono_to_stereo_intrinsics fuel n dst src gain_l gain_r st
    = Some (Returned st_pos) /\
    mix_mono_to_stereo_intrinsics fuel n dst src (F32.opp gain_l) (F32.opp gain_r) st
    = Some (Returned st_neg) /\
    forall i, 0 <= i < n ->
      st_mem st_neg (dst + 2 * i) = F32.opp (st_mem st_pos (dst + 2 * i)) /\
      st_mem st_neg (dst + 2 * i + 1) = F32.opp (st_mem st_pos (dst + 2 * i + 1)).
Proof.
  intros Hn Hw H4 Hd Hf.
  destruct (mix_elementwise fuel n dst src gain_l gain_r st Hn Hw H4 Hd Hf)
    as (st_pos & Rp & Cp).
  destruct (mix_elementwise fuel n dst src (F32.opp gain_l) (F32.opp gain_r) st Hn Hw H4 Hd Hf)
    as (st_neg & Rn & Cn).
  exists st_pos, st_neg. split; [exact Rp|]. split; [exact Rn|].
  intros i Hi.
  destruct (Cp i Hi) as [Pl Pr]. destruct (Cn i Hi) as [Nl Nr].
  rewrite Pl, Pr, Nl, Nr. split; apply F32More.mul_opp_r.
Qed.

Lemma mix_negated_gains_witness :
  exists st_pos st_neg,
    mix_mono_to_stereo_intrinsics 1 4 100 0 f0_5 f2 (state_of_list [f1; f2; f3; f4])
    = Some (Returned st_pos) /\
    mix_mono_to_stereo_intrinsics 1 4 100 0 (F32.opp f0_5) (F32.opp f2)
                                  (state_of_list [f1; f2; f3; f4])
    = Some (Returned st_neg) /\
    st_mem st_neg (100 + 2 * 2) = F32.opp (st_mem st_pos (100 + 2 * 2)) /\
    st_mem st_neg (100 + 2 * 2 + 1) = F32.opp (st_mem st_pos (100 + 2 * 2 + 1)).
Proof.
  destruct (mix_negated_gains 1 4 100 0 f0_5 f2 (state_of_list [f1; f2; f3; f4]))
    as (sp & sn & Rp & Rn & C);
    [lia | unfold UINT32_MOD; lia | reflexivity | lia | cbn; lia |].
  exists sp, sn. split; [exact Rp|]. split; [exact Rn|]. apply (C 2). lia.
Defined.

(** X8.  Where the NaNs come from.  For a count that is a multiple of four
    and at most [2^31] and a destination that does not overlap the source,
    an output cell is a NaN exactly when the sample or the gain is a NaN,
    or one of them is an infinity and the other a zero.  A finite sample
    and a finite gain never give a NaN (an overflow gives an infinity). *)
Theorem mix_nan_outputs
        (fuel : nat) (n dst src : Z) (gain_l gain_r : float32) (st : state) :
  0 <= n -> 2 * n <= UINT32_MOD -> n mod 4 = 0 ->
  src + n <= dst \/ dst + 2 * n <= src ->
  (num_blocks n <= fuel)%nat ->
  exists st',
    mix_mono_to_stereo_intrinsics fuel n dst src gain_l gain_r st = Some (Returned st') /\
    forall i, 0 <= i < n ->
      let x := st_mem st (src + i) in
      F32.is_nan (st_mem st' (dst + 2 * i))
      = F32.is_nan x || F32.is_nan gain_l
        || (F32.is_inf x && F32.is_zero gain_l) || (F32.is_zero x && F32.is_inf gain_l) /\
      F32.is_nan (st_mem st' (dst + 2 * i + 1))
      = F32.is_nan x || F32.is_nan gain_r
        || (F32.is_inf x && F32.is_zero gain_r) || (F32.is_zero x && F32.is_inf gain_r).
Proof.
  intros Hn Hw H4 Hd Hf.
  destruct (mix_elementwise fuel n dst src gain_l gain_r st Hn Hw H4 Hd Hf) as (st' & R & C).
  exists st'. split; [exact R|].
  intros i Hi. cbv zeta. destruct (C i Hi) as [Cl Cr]. rewrite Cl, Cr.
  split; apply F32More.mul_is_nan.
Qed.

Lemma mix_nan_outputs_witness :
  exists st',
    mix_mono_to_stereo_intrinsics 1 4 100 0 F32.pzero f2
                                  (state_of_list [F32.pinf; f1; S754_nan; f2p100])
    = Some (Returned st') /\
    F32.is_nan (st_mem st' (100 + 2 * 0)) = true /\
    F32.is_nan (st_mem st' (100 + 2 * 0 + 1)) = false /\
    F32.is_nan (st_mem st' (100 + 2 * 3)) = false.
Proof.
  destruct (mix_nan_outputs 1 4 100 0 F32.pzero f2
              (state_of_list [F32.pinf; f1; S754_nan; f2p100]))
    as (st' & R & C); [lia | unfold UINT32_MOD; lia | reflexivity | lia | cbn; lia |].
  exists st'. split; [exact R|].
  destruct (C 0 ltac:(lia)) as [L0 R0]. destruct (C 3 ltac:(lia)) as [L3 _].
  split; [exact L0|]. split; [exact R0 | exact L3].
Defined.

(** X9.  A gain that is a power of two is applied without rounding: for a
    count that is a multiple of four and at most [2^31] and a destination
    that does not overlap the source, with a gain [2^j] a normal sample
    [m * 2^e] whose scaled exponent [e + j] stays in the range of the
    normal numbers comes out as [m * 2^(e+j)], the same mantissa. *)
Theorem mix_power_of_two_gain
        (fuel : nat) (n dst src : Z) (gain_l gain_r : float32) (st : state) :
  0 <= n -> 2 * n <= UINT32_MOD -> n mod 4 = 0 ->
  src + n <= dst \/ dst + 2 * n <= src ->
  (num_blocks n <= fuel)%nat ->
  exists st',
    mix_mono_to_stereo_intrinsics fuel n dst src gain_l gain_r st = Some (Returned st') /\
    forall i j, 0 <= i < n ->
      let x := st_mem st (src + i) in
      F32.normal x = true ->
      emin F32.prec F32.emax <= F32.expo x + j <= F32.emax - F32.prec ->
      (gain_l = F32.pow2 j -> st_mem st' (dst + 2 * i) = F32.shift_expo j x) /\
      (gain_r = F32.pow2 j -> st_mem st' (dst + 2 * i + 1) = F32.shift_expo j x).
Proof.
  intros Hn Hw H4 Hd Hf.
  destruct (mix_elementwise fuel n dst src gain_l gain_r st Hn Hw H4 Hd Hf) as (st' & R & C).
  exists st'. split; [exact R|].
  intros i j Hi. cbv zeta. intros Nx Rx. destruct (C i Hi) as [Cl Cr].
  split; intros ->.
  - rewrite Cl. apply F32Facts.mul_pow2_normal; assumption.
  - rewrite Cr. apply F32Facts.mul_pow2_normal; assumption.
Qed.

Lemma mix_power_of_two_gain_witness :
  exists st',
    mix_mono_to_stereo_intrinsics 1 4 100 0 (F32.pow2 (-1)) (F32.pow2 1)
                                  (state_of_list [f1; f2; f3; f4])
    = Some (Returned st') /\
    st_mem st' (100 + 2 * 2) = F32.shift_expo (-1) f3 /\
    st_mem st' (100 + 2 * 2 + 1) = F32.shift_expo 1 f3.
Proof.
  destruct (mix_power_of_two_gain 1 4 100 0 (F32.pow2 (-1)) (F32.pow2 1)
              (state_of_list [f1; f2; f3; f4]))
    as (st' & R & C); [lia | unfold UINT32_MOD; lia | reflexivity | lia | cbn; lia |].
  exists st'. split; [exact R|].
  assert (N : F32.normal (st_mem (state_of_list [f1; f2; f3; f4]) (0 + 2)) = true)
    by reflexivity.
  split.
  - apply (C 2 (-1)); [lia | exact N | vm_compute; split; discriminate | reflexivity].
  - apply (C 2 1); [lia | exact N | vm_compute; split; discriminate | reflexivity].
Defined.

Lemma mix_identity_gain_witness :
  exists st',
    mix_mono_to_stereo_intrinsics 1 4 100 0 F32.one F32.one
                                  (state_of_list [f1; F32.pinf; S754_nan; f1_5])
    = Some (Returned st') /\
    st_mem st' (100 + 2 * 3) = f1_5 /\ st_mem st' (100 + 2 * 3 + 1) = f1_5 /\
    st_mem st' (100 + 2 * 1) = F32.pinf /\
    F32.is_nan (st_mem st' (100 + 2 * 2)) = true.
Proof.
  destruct (mix_identity_gain 1 4 100 0 (state_of_list [f1; F32.pinf; S754_nan; f1_5]))
    as (st' & R & C); [lia | unfold UINT32_MOD; lia | reflexivity | lia | cbn; lia | |].
  - intros i Hi.
    assert (Hc : i = 0 \/ i = 1 \/ i = 2 \/ i = 3) by lia.
    destruct Hc as [-> | [-> | [-> | ->]]]; reflexivity.
  - exists st'. split; [exact R|].
    destruct (C 3 ltac:(lia)) as [[V3l V3r] _]; [reflexivity|].
    destruct (C 1 ltac:(lia)) as [[V1l _] _]; [reflexivity|].
    destruct (C 2 ltac:(lia)) as [_ [N2 _]]; [reflexivity|].
    split; [exact V3l|]. split; [exact V3r|]. split; [exact V1l | exact N2].
Defined.

Lemma mix_accesses_witness :
  exists st' tr,
    mix_mono_to_stereo_intrinsics 2 8 100 0 f0_5 f2 (state_of_list ramp8)
    = Some (Returned st') /\
    st_trace st' = st_trace (state_of_list ramp8) ++ tr /\
    (forall a, In a (cells_read tr) -> 0 <= a < 0 + 8) /\
    (forall a, In a (cells_written tr) -> 100 <= a < 100 + 2 * 8) /\
    (forall a, 100 <= a < 100 + 2 * 8 -> times_written tr a = 1%nat) /\
    (forall a, a < 100 \/ 100 + 2 * 8 <= a ->
       times_written tr a = 0%nat /\ st_mem st' a = st_mem (state_of_list ramp8) a).
Proof.
  apply (mix_accesses 2 8 100 0 f0_5 f2 (state_of_list ramp8)).
  - lia.
  - unfold UINT32_MOD. lia.
  - reflexivity.
  - cbn. lia.
Defined.

(** ** Reads *)

Lemma blocks_read_once (dst src n : Z) (k : nat) :
  forall (i a : Z),
    0 <= i -> i + 4 * Z.of_nat k = n ->
    times_read (flat_map (block_events dst src) (block_starts i k)) a
    = if (src + i <=? a) && (a <? src + n) then 1%nat else 0%nat.
Proof.
  unfold times_read.
  induction k as [|k IH]; intros i a Hi Hn.
  - cbn [block_starts flat_map cells_read count_occ].
    destruct (Z.leb_spec (src + i) a), (Z.ltb_spec a (src + n));
      cbn [andb]; try reflexivity; lia.
  - cbn [block_starts flat_map]. rewrite cells_read_app, count_occ_app.
    rewrite IH by lia.
    cbn [block_events cells_read flat_map app].
    rewrite app_nil_r, count_occ_cells4.
    destruct (Z.leb_spec (src + i) a); cbn [andb];
      [destruct (Z.ltb_spec a (src + i + 4)); cbn [andb] |];
      (destruct (Z.leb_spec (src + (i + 4)) a); cbn [andb]);
      try (exfalso; lia);
      destruct (Z.ltb_spec a (src + n)); cbn [andb];
      try reflexivity; exfalso; lia.
Qed.

(** X12.  For every count that passes the assertion, whatever the
    buffers, the call reads each of the cells [src[0 .. num_samples-1]]
    once and reads no other cell: it never reads the destination, unless
    the caller made it overlap the source. *)
Theorem mix_reads_each_sample_once
        (fuel : nat) (n dst src : Z) (gain_l gain_r : float32) (st : state) :
  is_uint32 n -> n mod 4 = 0 ->
  (num_blocks n <= fuel)%nat ->
  exists st' tr,
    mix_mono_to_stereo_intrinsics fuel n dst src gain_l gain_r st = Some (Returned st') /\
    st_trace st' = st_trace st ++ tr /\
    (forall a, src <= a < src + n -> times_read tr a = 1%nat) /\
    (forall a, a < src \/ src + n <= a -> times_read tr a = 0%nat).
Proof.
  intros Hu H4 Hf.
  pose proof (block_count n ltac:(unfold is_uint32 in Hu; lia) H4) as Hk.
  exists (mixed n dst src gain_l gain_r st),
         (flat_map (block_events dst src) (block_starts 0 (num_blocks n))).
  split; [apply mix_returns; assumption|].
  split; [apply mixed_trace|].
  split; intros a Ha; rewrite (blocks_read_once dst src n) by lia;
    destruct (Z.leb_spec (src + 0) a), (Z.ltb_spec a (src + n));
    try lia; reflexivity.
Qed.

Lemma mix_reads_each_sample_once_witness :
  exists st' tr,
    mix_mono_to_stereo_intrinsics 2 8 100 0 f0_5 f2 (state_of_list ramp8)
    = Some (Returned st') /\
    st_trace st' = st_trace (state_of_list ramp8) ++ tr /\
    (forall a, 0 <= a < 0 + 8 -> times_read tr a = 1%nat) /\
    (forall a, a < 0 \/ 0 + 8 <= a -> times_read tr a = 0%nat).
Proof.
  apply (mix_reads_each_sample_once 2 8 100 0 f0_5 f2 (state_of_list ramp8)).
  - unfold is_uint32, UINT32_MOD. lia.
  - reflexivity.
  - cbn. lia.
Defined.
